(** * kubernetes-change-storage-class: the migration handler of [src/main.ts]

    A shallow embedding of the command handler: the Kubernetes objects it
    reads and writes, the two discovery helpers, the six step actions with
    their two polling loops, and the loop that asks for confirmation and
    runs the steps in order.

    The cluster and the operator are modelled as scripts held in the state:
    each API call takes the next scripted outcome of its kind, each prompt
    takes the next scripted line.  Everything the program does to the
    outside (API calls with their arguments and outcomes, terminal output,
    prompts, sleeps) is appended to a trace, in program order; the step
    loop also records there when it enters a step action and how the
    action ends.

    Not modelled: the kubeconfig and its [--context], command-line parsing,
    colours and underlining of the output, and the value of [uuid.v4()],
    which the handler takes as the argument [runID]. *)

From Stdlib Require Import ZArith String Ascii List Bool Lia.
From stdpp Require Import gmap strings list.
Import ListNotations.

Local Open Scope string_scope.
Local Open Scope Z_scope.

(** ** JavaScript strings and values *)

(** [String.prototype.startsWith]: does [s] begin with [search]? *)
Fixpoint startsWith (s search : string) : bool :=
  match search with
  | EmptyString => true
  | String c search' =>
      match s with
      | EmptyString => false
      | String d s' => if Ascii.eqb d c then startsWith s' search' else false
      end
  end.

(** [a == b] on values of type [string | undefined]. *)
Definition loose_eq (a b : option string) : bool :=
  match a, b with
  | None, None => true
  | Some x, Some y => String.eqb x y
  | _, _ => false
  end.

(** [n || 0] on a value of type [number | undefined]: [undefined] and [0]
    are falsy, every other integer is kept. *)
Definition or_zero (n : option Z) : Z :=
  match n with
  | None => 0
  | Some v => if v =? 0 then 0 else v
  end.

(** Values the handler carries around without looking inside. *)
#[local] Unset Elimination Schemes.
Inductive JSValue : Type :=
| JSNull
| JSBool (b : bool)
| JSNum (n : Z)
| JSStr (s : string)
| JSArr (items : list JSValue)
| JSObj (props : list (string * JSValue)).
#[local] Set Elimination Schemes.

(** ** Kubernetes objects (the fields of [@kubernetes/client-node] the
    handler touches; every [?:] field is an [option]) *)

Record V1ObjectMeta := {
  meta_name : option string;
  meta_namespace : option string;
  meta_uid : option string;
  meta_labels : option (gmap string string);
  meta_annotations : option (gmap string string);
}.

Record V1PersistentVolumeClaimSpec := {
  accessModes : option (list string);
  dataSource : option JSValue;
  dataSourceRef : option JSValue;
  resources : option JSValue;
  selector : option JSValue;
  storageClassName : option string;
  volumeMode : option string;
  volumeName : option string;
}.

Record V1PersistentVolumeClaim := {
  pvc_apiVersion : option string;
  pvc_kind : option string;
  pvc_metadata : option V1ObjectMeta;
  pvc_spec : option V1PersistentVolumeClaimSpec;
  pvc_status : option JSValue;
}.

Record V1ObjectReference := {
  ref_name : option string;
  ref_namespace : option string;
  ref_uid : option string;
}.

Record V1PersistentVolumeSpec := {
  claimRef : option V1ObjectReference;
  persistentVolumeReclaimPolicy : option string;
}.

Record V1PersistentVolumeStatus := {
  phase : option string;
}.

Record V1PersistentVolume := {
  pv_metadata : option V1ObjectMeta;
  pv_spec : option V1PersistentVolumeSpec;
  pv_status : option V1PersistentVolumeStatus;
}.

Record V1PersistentVolumeClaimVolumeSource := {
  claimName : option string;
}.

Record V1Volume := {
  vol_name : string;
  persistentVolumeClaim : option V1PersistentVolumeClaimVolumeSource;
}.

Record V1VolumeMount := {
  mount_name : string;
  mountPath : string;
}.

Record V1Container := {
  container_name : string;
  image : option string;
  args : option (list string);
  volumeMounts : option (list V1VolumeMount);
}.

Record V1PodSpec := {
  restartPolicy : option string;
  containers : list V1Container;
  volumes : option (list V1Volume);
}.

Record V1Pod := {
  pod_metadata : option V1ObjectMeta;
  pod_spec : option V1PodSpec;
}.

Record V1PodTemplateSpec := {
  template_spec : option V1PodSpec;
}.

Record V1JobSpec := {
  backoffLimit : option Z;
  template : V1PodTemplateSpec;
}.

Record V1JobStatus := {
  failed : option Z;
  succeeded : option Z;
}.

Record V1Job := {
  job_metadata : option V1ObjectMeta;
  job_spec : option V1JobSpec;
  job_status : option V1JobStatus;
}.

(** Optional chaining: [pvc.metadata?.name] and friends. *)
Definition pvc_name (pvc : V1PersistentVolumeClaim) : option string :=
  pvc_metadata pvc ≫= meta_name.
Definition pvc_namespace (pvc : V1PersistentVolumeClaim) : option string :=
  pvc_metadata pvc ≫= meta_namespace.
Definition pvc_uid (pvc : V1PersistentVolumeClaim) : option string :=
  pvc_metadata pvc ≫= meta_uid.
Definition pvc_labels (pvc : V1PersistentVolumeClaim) : option (gmap string string) :=
  pvc_metadata pvc ≫= meta_labels.
Definition pvc_annotations (pvc : V1PersistentVolumeClaim) : option (gmap string string) :=
  pvc_metadata pvc ≫= meta_annotations.
Definition pv_name (pv : V1PersistentVolume) : option string :=
  pv_metadata pv ≫= meta_name.
Definition pod_name (pod : V1Pod) : option string :=
  pod_metadata pod ≫= meta_name.

(** [{...pvc.spec}] when [pvc.spec] is [undefined]: no field is set. *)
Definition empty_claim_spec : V1PersistentVolumeClaimSpec :=
  {| accessModes := None; dataSource := None; dataSourceRef := None;
     resources := None; selector := None; storageClassName := None;
     volumeMode := None; volumeName := None |}.

(** ** Errors *)

Inductive Err : Type :=
| HttpError (statusCode : Z) (body : string)   (* [k8s.HttpError] *)
| OtherError (what : string).                  (* any other thrown value *)

(** [e instanceof k8s.HttpError && e.statusCode == 404] *)
Definition is_not_found (e : Err) : bool :=
  match e with
  | HttpError code _ => code =? 404
  | OtherError _ => false
  end.

(** ** Discovery helpers (pure part) *)

(** The body of [getPodsMountingPVC] after the list call: a pod is pushed
    once for every volume of it that references the claim. *)
Definition volume_mounts_claim (pvcName : string) (volume : V1Volume) : bool :=
  match persistentVolumeClaim volume with
  | Some src => loose_eq (claimName src) (Some pvcName)
  | None => false
  end.

Definition pods_mounting (pvcName : string) (items : list V1Pod) : list V1Pod :=
  flat_map
    (fun pod =>
       flat_map
         (fun volume => if volume_mounts_claim pvcName volume then [pod] else [])
         (default [] (pod_spec pod ≫= volumes)))
    items.

(** The body of [getPVForPVC] after the list call: the first volume whose
    phase is ['Bound'] and whose [claimRef.uid] equals the claim's uid. *)
Definition pv_matches (pvc : V1PersistentVolumeClaim) (pv : V1PersistentVolume) : bool :=
  if loose_eq (pv_status pv ≫= phase) (Some "Bound") then
    match pv_spec pv ≫= claimRef with
    | Some ref => loose_eq (ref_uid ref) (pvc_uid pvc)
    | None => false
    end
  else false.

Fixpoint first_matching_pv (pvc : V1PersistentVolumeClaim)
    (items : list V1PersistentVolume) : option V1PersistentVolume :=
  match items with
  | [] => None
  | pv :: rest => if pv_matches pvc pv then Some pv else first_matching_pv pvc rest
  end.

(** ** Step 3: the replacement claim *)

Definition reserved_prefix : string := "pv.kubernetes.io/".

(** [Object.fromEntries(Object.entries(a).filter(([k, v]) => !k.startsWith('pv.kubernetes.io/')))] *)
Definition filter_annotations (a : gmap string string) : gmap string string :=
  list_to_map
    (List.filter (fun kv : string * string => negb (startsWith (fst kv) reserved_prefix))
       (map_to_list a)).

(** The object literal passed to [createNamespacedPersistentVolumeClaim] in
    step 3.  [Object.entries] throws a [TypeError] on [undefined], before
    any request is made. *)
Definition replacement_claim (pvc : V1PersistentVolumeClaim)
    (newStorageClassName : string) : Err + V1PersistentVolumeClaim :=
  match pvc_annotations pvc with
  | None => inl (OtherError "TypeError: Cannot convert undefined or null to object")
  | Some a =>
      let old_spec := default empty_claim_spec (pvc_spec pvc) in
      inr {| pvc_apiVersion := pvc_apiVersion pvc;
             pvc_kind := pvc_kind pvc;
             pvc_metadata := Some
               {| meta_namespace := pvc_namespace pvc;
                  meta_name := pvc_name pvc;
                  meta_uid := None;
                  meta_labels := pvc_labels pvc;
                  meta_annotations := Some (filter_annotations a) |};
             pvc_status := None;
             pvc_spec := Some
               {| accessModes := accessModes old_spec;
                  dataSource := dataSource old_spec;
                  dataSourceRef := dataSourceRef old_spec;
                  resources := resources old_spec;
                  selector := selector old_spec;
                  volumeMode := volumeMode old_spec;
                  storageClassName := Some newStorageClassName;
                  volumeName := None |} |}
  end.

(** ** Step 5: reading the job's counters *)

Inductive PollResult : Type := Pending | Succeeded | Failed.

(** The [if / else if] of the job loop, lines 227-235. *)
Definition job_poll (job : V1Job) : PollResult :=
  if or_zero (job_status job ≫= failed) >? 0 then Failed
  else if or_zero (job_status job ≫= succeeded) >? 0 then Succeeded
  else Pending.

(** ** The trace: what the run does to the outside *)

Inductive JsonPatchOp : Type :=
| PatchReplace (path value : string)
| PatchRemove (path : string).

Inductive ApiCall : Type :=
| listNamespacedPod (ns : string)
| listPersistentVolume
| readNamespacedPersistentVolumeClaim (name ns : option string)
| patchPersistentVolume (name : option string) (patch : list JsonPatchOp)
| deleteNamespacedPersistentVolumeClaim (name ns : option string)
| createNamespacedPersistentVolumeClaim (ns : option string) (body : V1PersistentVolumeClaim)
| createNamespacedJob (ns : option string) (body : V1Job)
| readNamespacedJobStatus (name : string) (ns : option string).

Inductive Response : Type :=
| RError (e : Err)
| RPods (items : list V1Pod)
| RVolumes (items : list V1PersistentVolume)
| RClaim (body : V1PersistentVolumeClaim)
| RJob (body : V1Job)
| RDone.

(** The texts written with [output], with the interpolated values as
    arguments (colour and underline styling is not modelled). *)
Inductive Msg : Type :=
| MsgGathering                       (* `Gathering info...` *)
| MsgDone                            (* `Done!\n` *)
| MsgNewline                         (* `\n` *)
| MsgFoundHeader                     (* `Here's what we've found:\n` *)
| MsgFound (pvcName pvName : option string) (podNames : list (option string))
| MsgPlanHeader                      (* `If you approve, we will carry out ...\n` *)
| MsgPlanItem (n : nat) (description : string)       (* `    ${i + 1}. ${description}\n` *)
| MsgReady (n : nat) (description : string)          (* `Ready to run Step ${i + 1}: ...\n` *)
| MsgWaitingDeletion (podNames : list (option string))
| MsgWaitingJob (jobName : string)
| MsgStepSuccessful (n : nat)        (* `    Step ${i + 1} was successful.\n` *)
| MsgStepFailed (n : nat) (errorBody : option string)  (* `    Step ${i + 1} failed... Quitting.\n` *)
| MsgFinished.                       (* `Finished! Now you can recreate your Pods!\n` *)

Inductive Event : Type :=
| EApi (call : ApiCall) (response : Response)
| EOutput (m : Msg)
| EClearLine
| ECursorTo
| ESleep (ms : Z)
| EInput (prompt answer : string)
(* bookkeeping of the step loop: [step.run()] is entered, returns, throws *)
| EStepCall (i : nat)
| EStepReturn (i : nat) (successful : bool)
| EStepThrow (i : nat) (e : Err).

(** ** State and the monad of the handler *)

Record State := {
  (* the cluster: outcomes of the successive calls of each kind *)
  pod_lists : list (Err + list V1Pod);
  pv_lists : list (Err + list V1PersistentVolume);
  pvc_reads : list (Err + V1PersistentVolumeClaim);
  job_reads : list (Err + V1Job);
  writes : list (option Err);
  (* the operator: the lines typed at the successive prompts *)
  answers : list string;
  (* the handler's [let pods], reassigned by step 2 *)
  pods : list V1Pod;
  trace : list Event;
}.

(** How a computation ends: it returns, it throws, it waits for ever on an
    [await] the script has no outcome for, or the loop budget of the model
    is used up. *)
Inductive Outcome (A : Type) : Type :=
| Ret (a : A)
| Throw (e : Err)
| Blocked
| OutOfFuel.
Arguments Ret {A} a.
Arguments Throw {A} e.
Arguments Blocked {A}.
Arguments OutOfFuel {A}.

Definition M (A : Type) : Type := State -> Outcome A * State.

Definition ret {A} (a : A) : M A := fun st => (Ret a, st).
Definition throw {A} (e : Err) : M A := fun st => (Throw e, st).

Definition bind {A B} (m : M A) (k : A -> M B) : M B :=
  fun st =>
    match m st with
    | (Ret a, st') => k a st'
    | (Throw e, st') => (Throw e, st')
    | (Blocked, st') => (Blocked, st')
    | (OutOfFuel, st') => (OutOfFuel, st')
    end.

(** [try { m } catch (e) { handler e }] *)
Definition try_catch {A} (m : M A) (handler : Err -> M A) : M A :=
  fun st =>
    match m st with
    | (Throw e, st') => handler e st'
    | other => other
    end.

Declare Scope handler_scope.
Delimit Scope handler_scope with handler.
Notation "x <- m ;; k" := (bind m (fun x => k))
  (at level 100, m at next level, right associativity) : handler_scope.
Notation "m ;; k" := (bind m (fun _ => k))
  (at level 100, right associativity) : handler_scope.
Local Open Scope handler_scope.

Definition emit (e : Event) : M unit :=
  fun st =>
    (Ret tt,
     {| pod_lists := pod_lists st; pv_lists := pv_lists st; pvc_reads := pvc_reads st;
        job_reads := job_reads st; writes := writes st; answers := answers st;
        pods := pods st; trace := trace st ++ [e] |}).

Definition set_pods (ps : list V1Pod) : M unit :=
  fun st =>
    (Ret tt,
     {| pod_lists := pod_lists st; pv_lists := pv_lists st; pvc_reads := pvc_reads st;
        job_reads := job_reads st; writes := writes st; answers := answers st;
        pods := ps; trace := trace st |}).

Definition get_pods : M (list V1Pod) := fun st => (Ret (pods st), st).

(** A call resolves with the scripted outcome, which is logged with it; a
    rejected promise is a [Throw] at the [await]. *)
Definition settle {A} (call : ApiCall) (wrap : A -> Response) (r : Err + A) : M A :=
  match r with
  | inl e => emit (EApi call (RError e)) ;; throw e
  | inr a => emit (EApi call (wrap a)) ;; ret a
  end.

Definition api_listNamespacedPod (ns : string) : M (list V1Pod) :=
  fun st =>
    match pod_lists st with
    | [] => (Blocked, st)
    | r :: rest =>
        settle (listNamespacedPod ns) RPods r
          {| pod_lists := rest; pv_lists := pv_lists st; pvc_reads := pvc_reads st;
             job_reads := job_reads st; writes := writes st; answers := answers st;
             pods := pods st; trace := trace st |}
    end.

Definition api_listPersistentVolume : M (list V1PersistentVolume) :=
  fun st =>
    match pv_lists st with
    | [] => (Blocked, st)
    | r :: rest =>
        settle listPersistentVolume RVolumes r
          {| pod_lists := pod_lists st; pv_lists := rest; pvc_reads := pvc_reads st;
             job_reads := job_reads st; writes := writes st; answers := answers st;
             pods := pods st; trace := trace st |}
    end.

Definition api_readNamespacedPersistentVolumeClaim (name ns : option string)
    : M V1PersistentVolumeClaim :=
  fun st =>
    match pvc_reads st with
    | [] => (Blocked, st)
    | r :: rest =>
        settle (readNamespacedPersistentVolumeClaim name ns) RClaim r
          {| pod_lists := pod_lists st; pv_lists := pv_lists st; pvc_reads := rest;
             job_reads := job_reads st; writes := writes st; answers := answers st;
             pods := pods st; trace := trace st |}
    end.

Definition api_readNamespacedJobStatus (name : string) (ns : option string) : M V1Job :=
  fun st =>
    match job_reads st with
    | [] => (Blocked, st)
    | r :: rest =>
        settle (readNamespacedJobStatus name ns) RJob r
          {| pod_lists := pod_lists st; pv_lists := pv_lists st; pvc_reads := pvc_reads st;
             job_reads := rest; writes := writes st; answers := answers st;
             pods := pods st; trace := trace st |}
    end.

(** The patch, create and delete calls: the handler ignores what they
    resolve with. *)
Definition api_write (call : ApiCall) : M unit :=
  fun st =>
    match writes st with
    | [] => (Blocked, st)
    | r :: rest =>
        settle call (fun _ : unit => RDone)
          (match r with Some e => inl e | None => inr tt end)
          {| pod_lists := pod_lists st; pv_lists := pv_lists st; pvc_reads := pvc_reads st;
             job_reads := job_reads st; writes := rest; answers := answers st;
             pods := pods st; trace := trace st |}
    end.

Definition output (m : Msg) : M unit := emit (EOutput m).

(** [await input(prompt)] *)
Definition input (prompt : string) : M string :=
  fun st =>
    match answers st with
    | [] => (Blocked, st)
    | a :: rest =>
        (emit (EInput prompt a) ;; ret a)
          {| pod_lists := pod_lists st; pv_lists := pv_lists st; pvc_reads := pvc_reads st;
             job_reads := job_reads st; writes := writes st; answers := rest;
             pods := pods st; trace := trace st |}
    end.

(** [await new Promise((resolve, reject) => setTimeout(resolve, ms))] *)
Definition sleep (ms : Z) : M unit := emit (ESleep ms).

(** [while (true) { body }]: [body] yields [Some a] at a [break], with [a]
    the locals the code reads after the loop, and [None] when the iteration
    runs to its end. *)
Fixpoint while_true {A} (fuel : nat) (body : M (option A)) : M A :=
  match fuel with
  | O => fun st => (OutOfFuel, st)
  | S fuel' =>
      r <- body ;;
      match r with
      | Some a => ret a
      | None => while_true fuel' body
      end
  end.

(** ** The discovery helpers *)

Definition getPodsMountingPVC (pvcName namespaceName : string) : M (list V1Pod) :=
  items <- api_listNamespacedPod namespaceName ;;
  ret (pods_mounting pvcName items).

Definition getPVForPVC (pvc : V1PersistentVolumeClaim) : M (option V1PersistentVolume) :=
  items <- api_listPersistentVolume ;;
  ret (first_matching_pv pvc items).

(** ** The plan: six steps *)

Record Step := {
  description : string;
  run : M bool;
}.

Definition temp_claim_name (runID : string) : string := "csc-" ++ runID ++ "-old-data".
Definition copy_job_name (runID : string) : string := "csc-" ++ runID ++ "-copy-data".

Section Plan.
(** What the step closures capture: the loop budget of the model, the run
    token, the command-line arguments and the discovered objects. *)
Variable fuel : nat.
Variable runID : string.
Variables namespaceName newStorageClassName pvcName : string.
Variable pvc : V1PersistentVolumeClaim.
Variable pv : V1PersistentVolume.

Definition step1_run : M bool :=
  api_write (patchPersistentVolume (pv_name pv)
               [PatchReplace "/spec/persistentVolumeReclaimPolicy" "Retain"]) ;;
  ret true.

(** One turn of the loop of lines 119-140. *)
Definition deletion_wait_body : M (option unit) :=
  ps <- getPodsMountingPVC pvcName namespaceName ;;
  set_pods ps ;;
  emit EClearLine ;;
  emit ECursorTo ;;
  ps' <- get_pods ;;
  output (MsgWaitingDeletion (map pod_name ps')) ;;
  stop <- try_catch
            (api_readNamespacedPersistentVolumeClaim (pvc_name pvc) (pvc_namespace pvc) ;;
             ret false)
            (fun e => if is_not_found e then ret true else ret false) ;;
  if stop : bool then ret (Some tt)
  else sleep 1000 ;; ret None.

Definition deletion_wait : M unit := while_true fuel deletion_wait_body.

Definition step2_run : M bool :=
  api_write (deleteNamespacedPersistentVolumeClaim (pvc_name pvc) (pvc_namespace pvc)) ;;
  deletion_wait ;;
  output MsgNewline ;;
  ret true.

Definition step3_run : M bool :=
  match replacement_claim pvc newStorageClassName with
  | inl e => throw e
  | inr body =>
      api_write (createNamespacedPersistentVolumeClaim (pvc_namespace pvc) body) ;;
      ret true
  end.

Definition temp_claim : V1PersistentVolumeClaim :=
  {| pvc_apiVersion := None;
     pvc_kind := None;
     pvc_metadata := Some
       {| meta_name := Some (temp_claim_name runID); meta_namespace := None;
          meta_uid := None; meta_labels := None; meta_annotations := None |};
     pvc_spec := Some
       {| storageClassName := pvc_spec pvc ≫= storageClassName;
          accessModes := pvc_spec pvc ≫= accessModes;
          resources := pvc_spec pvc ≫= resources;
          volumeName := pv_name pv;
          dataSource := None; dataSourceRef := None; selector := None;
          volumeMode := None |};
     pvc_status := None |}.

Definition step4_run : M bool :=
  api_write (patchPersistentVolume (pv_name pv) [PatchRemove "/spec/claimRef"]) ;;
  api_write (createNamespacedPersistentVolumeClaim (pvc_namespace pvc) temp_claim) ;;
  ret true.

Definition copy_job : V1Job :=
  {| job_metadata := Some
       {| meta_name := Some (copy_job_name runID); meta_namespace := None;
          meta_uid := None; meta_labels := None; meta_annotations := None |};
     job_spec := Some
       {| backoffLimit := Some 0;
          template :=
            {| template_spec := Some
                 {| restartPolicy := Some "Never";
                    containers :=
                      [ {| container_name := "rsync";
                           image := Some "eeacms/rsync";
                           args := Some ["rsync"; "-avx"; "/old/"; "/new"];
                           volumeMounts := Some
                             [ {| mount_name := "old"; mountPath := "/old" |};
                               {| mount_name := "new"; mountPath := "/new" |} ] |} ];
                    volumes := Some
                      [ {| vol_name := "old";
                           persistentVolumeClaim :=
                             Some {| claimName := Some (temp_claim_name runID) |} |};
                        {| vol_name := "new";
                           persistentVolumeClaim :=
                             Some {| claimName := pvc_name pvc |} |} ] |} |} |};
     job_status := None |}.

(** One turn of the loop of lines 223-242; at a [break] it yields the
    value [succeeded] has then. *)
Definition job_wait_body : M (option bool) :=
  jobStatus <- api_readNamespacedJobStatus (copy_job_name runID) (pvc_namespace pvc) ;;
  match job_poll jobStatus with
  | Failed => ret (Some false)
  | Succeeded => ret (Some true)
  | Pending =>
      emit EClearLine ;;
      emit ECursorTo ;;
      output (MsgWaitingJob (copy_job_name runID)) ;;
      sleep 1000 ;;
      ret None
  end.

Definition job_wait : M bool := while_true fuel job_wait_body.

Definition step5_run : M bool :=
  api_write (createNamespacedJob (pvc_namespace pvc) copy_job) ;;
  succeeded <- job_wait ;;
  output MsgNewline ;;
  ret succeeded.

Definition step6_run : M bool :=
  api_write (deleteNamespacedPersistentVolumeClaim
               (Some (temp_claim_name runID)) (pvc_namespace pvc)) ;;
  ret true.

Definition steps : list Step :=
  [ {| description := "Change the PV's reclaim policy (.spec.persistentVolumeReclaimPolicy) to Retain. This means the PV will not be deleted when the PVC is deleted.";
       run := step1_run |};
    {| description := "Delete the PVC. You will need to get rid of any Pods that mount the PVC (i.e. scale Deployments/StatefulSets/ReplicaSets to 0) before the deletion can complete.";
       run := step2_run |};
    {| description := "Create a new PVC, identical to the old one, except for the storage class, which will be changed to " ++ newStorageClassName ++ ". This will cause a new PV to be provisioned by the " ++ newStorageClassName ++ " storage provider.";
       run := step3_run |};
    {| description := "Create a temporary PVC to allow us to mount the old PV in order to copy the data across to the new one.";
       run := step4_run |};
    {| description := "Create a Job to copy the data. This Job's Pod will mount both the old PV and the new one.";
       run := step5_run |};
    {| description := "Delete the temporary PVC. Note that we do not delete the old PV - you can do this manually after you have checked that your data is intact in the new PV.";
       run := step6_run |} ].
End Plan.

(** ** The step loop *)

Definition confirm_prompt : string := "    Do you want to continue? (Y/N) ".

(** [e instanceof k8s.HttpError ? JSON.stringify(e.body) : nothing] *)
Definition error_detail (e : Err) : option string :=
  match e with
  | HttpError _ body => Some body
  | OtherError _ => None
  end.

(** The first loop over the plan, lines 256-260. *)
Fixpoint print_plan (i : nat) (plan : list Step) : M unit :=
  match plan with
  | [] => ret tt
  | step :: rest => output (MsgPlanItem (S i) (description step)) ;; print_plan (S i) rest
  end.

(** The second loop, lines 264-294, from index [i] on.  [Some v] is a
    [return v] out of the handler ([None] for [undefined]); [None] is the
    loop running to its end. *)
Fixpoint run_steps (i : nat) (plan : list Step) : M (option (option bool)) :=
  match plan with
  | [] => ret None
  | step :: rest =>
      output (MsgReady (S i) (description step)) ;;
      answer <- input confirm_prompt ;;
      if negb (String.eqb answer "Y") then ret (Some None)
      else
        r <- try_catch
               (emit (EStepCall i) ;;
                successful <- run step ;;
                emit (EStepReturn i successful) ;;
                if successful : bool
                then output (MsgStepSuccessful (S i)) ;; ret None
                else output (MsgStepFailed (S i) None) ;; ret (Some (Some false)))
               (fun e =>
                  emit (EStepThrow i e) ;;
                  output (MsgStepFailed (S i) (error_detail e)) ;;
                  ret (Some (Some false))) ;;
        match r with
        | Some v => ret (Some v)
        | None => run_steps (S i) rest
        end
  end.

(** ** The handler *)

Definition handler (fuel : nat) (runID : string)
    (namespaceName newStorageClassName pvcName : string) : M (option bool) :=
  output MsgGathering ;;
  pvc <- api_readNamespacedPersistentVolumeClaim (Some pvcName) (Some namespaceName) ;;
  pv <- getPVForPVC pvc ;;
  ps <- getPodsMountingPVC pvcName namespaceName ;;
  set_pods ps ;;
  output MsgDone ;;
  output MsgNewline ;;
  match pv with
  | Some pv =>
      output MsgFoundHeader ;;
      ps' <- get_pods ;;
      output (MsgFound (pvc_name pvc) (pv_name pv) (map pod_name ps')) ;;
      output MsgNewline ;;
      let plan := steps fuel runID namespaceName newStorageClassName pvcName pvc pv in
      output MsgPlanHeader ;;
      print_plan 0 plan ;;
      output MsgNewline ;;
      r <- run_steps 0 plan ;;
      match r with
      | Some v => ret v
      | None => output MsgNewline ;; output MsgFinished ;; ret None
      end
  | None => ret None
  end.

(** ** Observing a run *)

(** The same state with an empty trace: where a run starts. *)
Definition fresh (st : State) : State :=
  {| pod_lists := pod_lists st; pv_lists := pv_lists st; pvc_reads := pvc_reads st;
     job_reads := job_reads st; writes := writes st; answers := answers st;
     pods := pods st; trace := [] |}.

(** The events of a run of [m] started in [st]. *)
Definition events_of {A} (m : M A) (st : State) : list Event :=
  trace (snd (m (fresh st))).

Definition result_of {A} (m : M A) (st : State) : Outcome A :=
  fst (m (fresh st)).

(** The events of the step loop itself, as opposed to what the step
    actions and the rest of the handler do. *)
Definition is_loop_event (e : Event) : bool :=
  match e with
  | EInput _ _ | EStepCall _ | EStepReturn _ _ | EStepThrow _ _ => true
  | _ => false
  end.

Definition is_step_call (i : nat) (e : Event) : bool :=
  match e with
  | EStepCall j => Nat.eqb i j
  | _ => false
  end.

Definition is_step_failure (e : Event) : bool :=
  match e with
  | EStepReturn _ false | EStepThrow _ _ => true
  | _ => false
  end.

Definition is_claim_read (e : Event) : bool :=
  match e with
  | EApi (readNamespacedPersistentVolumeClaim _ _) _ => true
  | _ => false
  end.

(** The progress line of the deletion wait, line 125. *)
Definition is_deletion_progress (e : Event) : bool :=
  match e with
  | EOutput (MsgWaitingDeletion _) => true
  | _ => false
  end.

Definition is_sleep (e : Event) : bool :=
  match e with
  | ESleep _ => true
  | _ => false
  end.

Definition is_failure_report (e : Event) : bool :=
  match e with
  | EOutput (MsgStepFailed _ _) => true
  | _ => false
  end.

Definition count (p : Event -> bool) (tr : list Event) : nat :=
  length (List.filter p tr).

(** The state after the job loop has read [job], the state one turn later
    when it goes on waiting, and the state after the deletion loop has
    listed [items], written its progress line, got [read] for the claim and
    then done [more]. *)
Definition after_job_read (runID : string) (pvc : V1PersistentVolumeClaim)
    (job : V1Job) (st : State) : State :=
  {| pod_lists := pod_lists st; pv_lists := pv_lists st; pvc_reads := pvc_reads st;
     job_reads := tail (job_reads st); writes := writes st; answers := answers st;
     pods := pods st;
     trace := trace st ++
       [EApi (readNamespacedJobStatus (copy_job_name runID) (pvc_namespace pvc)) (RJob job)] |}.

Definition after_job_tick (runID : string) (pvc : V1PersistentVolumeClaim)
    (job : V1Job) (st : State) : State :=
  {| pod_lists := pod_lists st; pv_lists := pv_lists st; pvc_reads := pvc_reads st;
     job_reads := tail (job_reads st); writes := writes st; answers := answers st;
     pods := pods st;
     trace := trace st ++
       [EApi (readNamespacedJobStatus (copy_job_name runID) (pvc_namespace pvc)) (RJob job);
        EClearLine; ECursorTo; EOutput (MsgWaitingJob (copy_job_name runID));
        ESleep 1000] |}.

Definition deletion_turn_events (namespaceName pvcName : string)
    (pvc : V1PersistentVolumeClaim) (items : list V1Pod) (read : Response) : list Event :=
  [EApi (listNamespacedPod namespaceName) (RPods items);
   EClearLine; ECursorTo;
   EOutput (MsgWaitingDeletion (map pod_name (pods_mounting pvcName items)));
   EApi (readNamespacedPersistentVolumeClaim (pvc_name pvc) (pvc_namespace pvc)) read].

Definition after_deletion_turn (namespaceName pvcName : string)
    (pvc : V1PersistentVolumeClaim) (items : list V1Pod) (read : Response)
    (more : list Event) (st : State) : State :=
  {| pod_lists := tail (pod_lists st); pv_lists := pv_lists st;
     pvc_reads := tail (pvc_reads st);
     job_reads := job_reads st; writes := writes st; answers := answers st;
     pods := pods_mounting pvcName items;
     trace := trace st ++ deletion_turn_events namespaceName pvcName pvc items read ++ more |}.

(** A counter that is present and greater than zero. *)
Definition positive_count (c : option Z) : Prop :=
  exists n, c = Some n /\ 0 < n.

Definition outputs (tr : list Event) : list Msg :=
  flat_map (fun e => match e with EOutput m => [m] | _ => [] end) tr.

(** Events without a loop event among them. *)
Definition quiet (evs : list Event) : Prop :=
  Forall (fun e => is_loop_event e = false) evs.

(** A computation is silent when it adds no loop event to the trace. *)
Definition silent {A} (m : M A) : Prop :=
  forall st, exists evs : list Event,
    trace (snd (m st)) = (trace st ++ evs)%list /\ quiet evs.

(** The state with [evs] appended to the trace, and the state with the
    next typed line consumed. *)
Definition log (evs : list Event) (st : State) : State :=
  {| pod_lists := pod_lists st; pv_lists := pv_lists st; pvc_reads := pvc_reads st;
     job_reads := job_reads st; writes := writes st; answers := answers st;
     pods := pods st; trace := trace st ++ evs |}.

Definition answered (st : State) : State :=
  {| pod_lists := pod_lists st; pv_lists := pv_lists st; pvc_reads := pvc_reads st;
     job_reads := job_reads st; writes := writes st; answers := tail (answers st);
     pods := pods st; trace := trace st |}.

(** *** The step loop as a state machine over its events

    [Awaiting i]: step [i] is next and its prompt is not answered yet;
    [Confirmed i]: the prompt was answered [Y]; [Running i]: the action of
    step [i] is executing; [Declined]: a prompt was answered otherwise;
    [Halted]: a step returned [false] or threw. *)
Inductive Phase : Type :=
| Awaiting (i : nat)
| Confirmed (i : nat)
| Running (i : nat)
| Declined
| Halted.

Definition phase_step (s : Phase) (e : Event) : option Phase :=
  match s, e with
  | Awaiting i, EInput p a =>
      if String.eqb p confirm_prompt
      then Some (if String.eqb a "Y" then Confirmed i else Declined)
      else None
  | Confirmed i, EStepCall j => if Nat.eqb i j then Some (Running i) else None
  | Running i, EStepReturn j ok =>
      if Nat.eqb i j then Some (if ok then Awaiting (S i) else Halted) else None
  | Running i, EStepThrow j _ => if Nat.eqb i j then Some Halted else None
  | Confirmed _, _ => None
  | Declined, _ => None
  | _, _ => if is_loop_event e then None else Some s
  end.

Fixpoint monitor (s : Phase) (tr : list Event) : option Phase :=
  match tr with
  | [] => Some s
  | e :: rest =>
      match phase_step s e with
      | Some s' => monitor s' rest
      | None => None
      end
  end.

(** Phases in which events other than the loop's own may occur. *)
Definition idle (s : Phase) : Prop :=
  match s with
  | Awaiting _ | Running _ | Halted => True
  | Confirmed _ | Declined => False
  end.

(** Can the action of step [j] still be called from phase [s] on? *)
Definition may_call (s : Phase) (j : nat) : bool :=
  match s with
  | Awaiting i | Confirmed i => Nat.leb i j
  | Running i => Nat.ltb i j
  | Declined | Halted => false
  end.

(** [m], started in phase [s0], adds events the state machine accepts, and
    the phase and outcome it ends with satisfy [Q]. *)
Definition monitored {A} (s0 : Phase) (m : M A) (Q : Phase -> Outcome A -> Prop) : Prop :=
  forall st, exists (evs : list Event) (s : Phase),
    trace (snd (m st)) = (trace st ++ evs)%list /\
    monitor s0 evs = Some s /\
    Q s (fst (m st)).

(** What must have happened before a phase is reached. *)
Definition history (s : Phase) (l : list Event) : Prop :=
  match s with
  | Running j => exists a b, l = (a ++ EStepCall j :: b)%list
  | Awaiting (S j) =>
      exists a b c, l = (a ++ EStepCall j :: b ++ EStepReturn j true :: c)%list
  | Confirmed j =>
      (exists l0, l = (l0 ++ [EInput confirm_prompt "Y"])%list) /\
      match j with
      | S j' =>
          exists a b c, l = (a ++ EStepCall j' :: b ++ EStepReturn j' true :: c)%list
      | O => True
      end
  | _ => True
  end.

(** What the step loop returns in each phase it can end in. *)
Definition phase_result (s : Phase) (r : Outcome (option (option bool))) : Prop :=
  match s with
  | Declined => r = Ret (Some None)
  | Halted => r = Ret (Some (Some false))
  | Awaiting _ => r = Ret None \/ r = Blocked
  | Confirmed _ => False
  | Running _ => r = Blocked \/ r = OutOfFuel
  end.

(** What the loop guarantees when it ends: the phase fits the outcome, and
    it falls out of its end only after the last step. *)
Definition steps_post (last : nat) (s : Phase) (r : Outcome (option (option bool))) : Prop :=
  phase_result s r /\ (r = Ret None -> s = Awaiting last).

(** What the handler returns when it ends in phase [s]: [undefined] after
    a declined prompt, [false] after a failed step. *)
Definition handler_result (s : Phase) (r : Outcome (option bool)) : Prop :=
  match s with
  | Declined => r = Ret None
  | Halted => r = Ret (Some false)
  | _ => True
  end.

(** A job snapshot without a status object, or without both counters. *)
Definition counters_missing (job : V1Job) : Prop :=
  job_status job = None \/
  (job_status job ≫= failed = None /\ job_status job ≫= succeeded = None).

(** ** Sample objects and scripts *)

Definition example_annotations : gmap string string :=
  {[ "pv.kubernetes.io/bound-by-controller" := "yes"; "team" := "infra" ]}.

Definition sample_meta (name : string) (uid : string)
    (annotations : option (gmap string string)) : V1ObjectMeta :=
  {| meta_name := Some name; meta_namespace := Some "apps"; meta_uid := Some uid;
     meta_labels := Some {[ "app" := "db" ]}; meta_annotations := annotations |}.

Definition sample_spec : V1PersistentVolumeClaimSpec :=
  {| accessModes := Some ["ReadWriteOnce"]; dataSource := None; dataSourceRef := None;
     resources := Some (JSObj [("requests", JSObj [("storage", JSStr "1Gi")])]);
     selector := None; storageClassName := Some "standard";
     volumeMode := Some "Filesystem"; volumeName := Some "pv-1" |}.

(** The claim ["data"] of the end-to-end scenario. *)
Definition sample_claim : V1PersistentVolumeClaim :=
  {| pvc_apiVersion := Some "v1"; pvc_kind := Some "PersistentVolumeClaim";
     pvc_metadata := Some (sample_meta "data" "uid-1" (Some example_annotations));
     pvc_spec := Some sample_spec; pvc_status := None |}.

(** What step 3 creates from it for the target class ["fast"]. *)
Definition sample_replacement : V1PersistentVolumeClaim :=
  {| pvc_apiVersion := Some "v1"; pvc_kind := Some "PersistentVolumeClaim";
     pvc_metadata := Some
       {| meta_name := Some "data"; meta_namespace := Some "apps"; meta_uid := None;
          meta_labels := Some {[ "app" := "db" ]};
          meta_annotations := Some (filter_annotations example_annotations) |};
     pvc_spec := Some
       {| accessModes := Some ["ReadWriteOnce"]; dataSource := None; dataSourceRef := None;
          resources := Some (JSObj [("requests", JSObj [("storage", JSStr "1Gi")])]);
          selector := None; storageClassName := Some "fast";
          volumeMode := Some "Filesystem"; volumeName := None |};
     pvc_status := None |}.

(** The same claim as the API returns it when it has no annotations. *)
Definition bare_claim : V1PersistentVolumeClaim :=
  {| pvc_apiVersion := Some "v1"; pvc_kind := Some "PersistentVolumeClaim";
     pvc_metadata := Some (sample_meta "data" "uid-1" None);
     pvc_spec := Some sample_spec; pvc_status := None |}.

Definition sample_volume : V1PersistentVolume :=
  {| pv_metadata := Some (sample_meta "pv-1" "uid-pv" None);
     pv_spec := Some
       {| claimRef := Some {| ref_name := Some "data"; ref_namespace := Some "apps";
                              ref_uid := Some "uid-1" |};
          persistentVolumeReclaimPolicy := Some "Delete" |};
     pv_status := Some {| phase := Some "Bound" |} |}.

(** A volume bound to some other claim. *)
Definition other_volume : V1PersistentVolume :=
  {| pv_metadata := Some (sample_meta "pv-2" "uid-pv2" None);
     pv_spec := Some
       {| claimRef := Some {| ref_name := Some "logs"; ref_namespace := Some "apps";
                              ref_uid := Some "uid-2" |};
          persistentVolumeReclaimPolicy := Some "Delete" |};
     pv_status := Some {| phase := Some "Bound" |} |}.

Definition job_with (f s : option Z) : V1Job :=
  {| job_metadata := None; job_spec := None;
     job_status := Some {| failed := f; succeeded := s |} |}.

Definition job_without_status : V1Job :=
  {| job_metadata := None; job_spec := None; job_status := None |}.

(** Claim reads [exists, exists, Not-Found] while no pod mounts the claim. *)
Definition deletion_script : State :=
  {| pod_lists := [inr []; inr []; inr []]; pv_lists := [];
     pvc_reads := [inr sample_claim; inr sample_claim; inl (HttpError 404 "not found")];
     job_reads := []; writes := []; answers := []; pods := []; trace := [] |}.

(** Claim reads [500, Not-Found]. *)
Definition flaky_script : State :=
  {| pod_lists := [inr []; inr []]; pv_lists := [];
     pvc_reads := [inl (HttpError 500 "internal error"); inl (HttpError 404 "not found")];
     job_reads := []; writes := []; answers := []; pods := []; trace := [] |}.

(** Discovery in a cluster whose only volume belongs to another claim. *)
Definition unbound_script : State :=
  {| pod_lists := [inr []]; pv_lists := [inr [other_volume]];
     pvc_reads := [inr sample_claim];
     job_reads := []; writes := [None; None; None; None; None; None; None];
     answers := ["Y"; "Y"; "Y"; "Y"; "Y"; "Y"]; pods := []; trace := [] |}.

(** The end-to-end scenario: every call succeeds, the operator approves
    every step, the claim is gone at the second poll and the job succeeds
    at the second poll. *)
Definition happy_script : State :=
  {| pod_lists := [inr []; inr []; inr []]; pv_lists := [inr [other_volume; sample_volume]];
     pvc_reads := [inr sample_claim; inr sample_claim; inl (HttpError 404 "not found")];
     job_reads := [inr (job_with None None); inr (job_with (Some 0) (Some 1))];
     writes := [None; None; None; None; None; None; None];
     answers := ["Y"; "Y"; "Y"; "Y"; "Y"; "Y"]; pods := []; trace := [] |}.

(** The failure scenario: the copy job reports one failed pod at its first
    poll. *)
Definition failing_job_script : State :=
  {| pod_lists := [inr []; inr []; inr []]; pv_lists := [inr [other_volume; sample_volume]];
     pvc_reads := [inr sample_claim; inr sample_claim; inl (HttpError 404 "not found")];
     job_reads := [inr (job_with (Some 1) None)];
     writes := [None; None; None; None; None; None; None];
     answers := ["Y"; "Y"; "Y"; "Y"; "Y"; "Y"]; pods := []; trace := [] |}.

(** The same, with the operator typing a lowercase [y] at the third prompt. *)
Definition declining_script : State :=
  {| pod_lists := [inr []; inr []; inr []]; pv_lists := [inr [other_volume; sample_volume]];
     pvc_reads := [inr sample_claim; inr sample_claim; inl (HttpError 404 "not found")];
     job_reads := [inr (job_with None None); inr (job_with (Some 0) (Some 1))];
     writes := [None; None; None; None; None; None; None];
     answers := ["Y"; "Y"; "y"; "Y"; "Y"; "Y"]; pods := []; trace := [] |}.

(** ** Further observations *)

(** How many volumes of [pod] reference the claim [pvcName]. *)
Definition matching_volumes (pvcName : string) (pod : V1Pod) : nat :=
  length (List.filter (volume_mounts_claim pvcName) (default [] (pod_spec pod ≫= volumes))).

(** The calls that change the cluster: patch, delete and create. *)
Definition is_write_call (e : Event) : bool :=
  match e with
  | EApi (patchPersistentVolume _ _) _
  | EApi (deleteNamespacedPersistentVolumeClaim _ _) _
  | EApi (createNamespacedPersistentVolumeClaim _ _) _
  | EApi (createNamespacedJob _ _) _ => true
  | _ => false
  end.

(** The progress line of the job wait, line 239. *)
Definition is_job_progress (e : Event) : bool :=
  match e with
  | EOutput (MsgWaitingJob _) => true
  | _ => false
  end.

Definition is_job_read (e : Event) : bool :=
  match e with
  | EApi (readNamespacedJobStatus _ _) _ => true
  | _ => false
  end.

(** A read of the claim after which the deletion wait goes round again:
    the claim came back, or the read failed with something else than 404. *)
Definition keeps_waiting (r : Err + V1PersistentVolumeClaim) : Prop :=
  match r with
  | inr _ => True
  | inl e => is_not_found e = false
  end.

(** The lines of the first loop over the plan, numbered from [i + 1]. *)
Fixpoint plan_items (i : nat) (plan : list Step) : list Event :=
  match plan with
  | [] => []
  | step :: rest => EOutput (MsgPlanItem (S i) (description step)) :: plan_items (S i) rest
  end.

(** The state of a run that started in [st] once discovery has read the
    claim [pvc], the volumes [items] and the pods [listed]. *)
Definition after_discovery (namespaceName pvcName : string)
    (pvc : V1PersistentVolumeClaim) (items : list V1PersistentVolume)
    (listed : list V1Pod) (st : State) : State :=
  {| pod_lists := tail (pod_lists st); pv_lists := tail (pv_lists st);
     pvc_reads := tail (pvc_reads st);
     job_reads := job_reads st; writes := writes st; answers := answers st;
     pods := pods_mounting pvcName listed;
     trace :=
       [EOutput MsgGathering;
        EApi (readNamespacedPersistentVolumeClaim (Some pvcName) (Some namespaceName))
          (RClaim pvc);
        EApi listPersistentVolume (RVolumes items);
        EApi (listNamespacedPod namespaceName) (RPods listed);
        EOutput MsgDone; EOutput MsgNewline] |}.

(** What the handler writes between discovery and the first prompt. *)
Definition announcement (pvcName : string) (pvc : V1PersistentVolumeClaim)
    (pv : V1PersistentVolume) (listed : list V1Pod) (plan : list Step) : list Event :=
  [EOutput MsgFoundHeader;
   EOutput (MsgFound (pvc_name pvc) (pv_name pv) (map pod_name (pods_mounting pvcName listed)));
   EOutput MsgNewline; EOutput MsgPlanHeader] ++ plan_items 0 plan ++ [EOutput MsgNewline].

Definition is_prompt (e : Event) : bool :=
  match e with
  | EInput _ _ => true
  | _ => false
  end.

(** The message the step loop writes for a failure event. *)
Definition failure_message (e : Event) : option Msg :=
  match e with
  | EStepReturn i false => Some (MsgStepFailed (S i) None)
  | EStepThrow i err => Some (MsgStepFailed (S i) (error_detail err))
  | _ => None
  end.

(** The calls of a trace that change the cluster, in order. *)
Definition write_calls (tr : list Event) : list Event := List.filter is_write_call tr.

(** A computation that sends no such call. *)
Definition write_free {A} (m : M A) : Prop :=
  forall st, exists evs : list Event,
    trace (snd (m st)) = (trace st ++ evs)%list /\ write_calls evs = [].

(** [step], whenever it returns [true], has sent exactly the calls [sent]. *)
Definition sends_when_true (step : Step) (sent : list Event) : Prop :=
  forall st st',
    run step st = (Ret true, st') ->
    exists evs : list Event, trace st' = (trace st ++ evs)%list /\ write_calls evs = sent.

(** The seven calls of a complete migration, all accepted. *)
Definition migration_calls (runID newStorageClassName : string)
    (pvc : V1PersistentVolumeClaim) (pv : V1PersistentVolume) : list (list Event) :=
  [ [EApi (patchPersistentVolume (pv_name pv)
             [PatchReplace "/spec/persistentVolumeReclaimPolicy" "Retain"]) RDone];
    [EApi (deleteNamespacedPersistentVolumeClaim (pvc_name pvc) (pvc_namespace pvc)) RDone];
    match replacement_claim pvc newStorageClassName with
    | inr body => [EApi (createNamespacedPersistentVolumeClaim (pvc_namespace pvc) body) RDone]
    | inl _ => []
    end;
    [EApi (patchPersistentVolume (pv_name pv) [PatchRemove "/spec/claimRef"]) RDone;
     EApi (createNamespacedPersistentVolumeClaim (pvc_namespace pvc) (temp_claim runID pvc pv))
       RDone];
    [EApi (createNamespacedJob (pvc_namespace pvc) (copy_job runID pvc)) RDone];
    [EApi (deleteNamespacedPersistentVolumeClaim (Some (temp_claim_name runID))
             (pvc_namespace pvc)) RDone] ].

(** * Properties *)

(** ** The two end-to-end scenarios *)

(** Every step approved and successful: each of the six actions is entered
    once, the run ends with the closing message and returns [undefined]. *)
Example happy_run :
  let run := handler 3 "run-1" "apps" "fast" "data" in
  result_of run happy_script = Ret None /\
  map (fun i => count (is_step_call i) (events_of run happy_script)) (seq 0 6) =
  [1; 1; 1; 1; 1; 1]%nat /\
  last (outputs (events_of run happy_script)) = Some MsgFinished.
Proof. vm_compute. repeat split. Qed.

(** The copy job fails: step 5 is reported as failed, step 6 is never
    entered, and the handler returns [false]. *)
Example failing_job_run :
  let run := handler 3 "run-1" "apps" "fast" "data" in
  result_of run failing_job_script = Ret (Some false) /\
  map (fun i => count (is_step_call i) (events_of run failing_job_script)) (seq 0 6) =
  [1; 1; 1; 1; 1; 0]%nat /\
  last (outputs (events_of run failing_job_script)) = Some (MsgStepFailed 5 None).
Proof. vm_compute. repeat split. Qed.

(** Running the monad on a state whose scripts are known. *)
Ltac run_handler :=
  cbv [bind try_catch ret throw emit output sleep set_pods get_pods settle input
       api_listNamespacedPod api_listPersistentVolume
       api_readNamespacedPersistentVolumeClaim api_readNamespacedJobStatus api_write
       getPodsMountingPVC getPVForPVC];
  cbn.

Ltac run_handler_in H :=
  cbv [bind try_catch ret throw emit output sleep set_pods get_pods settle input
       api_listNamespacedPod api_listPersistentVolume
       api_readNamespacedPersistentVolumeClaim api_readNamespacedJobStatus api_write
       getPodsMountingPVC getPVForPVC] in H;
  cbn in H.

(** ** Step 3: annotations, labels and spec of the replacement claim *)

Section Annotations.
Implicit Types (a : gmap string string) (k v : string).

Lemma filter_keys_NoDup (keep : string * string -> bool) (l : list (string * string)) :
  NoDup (l.*1) -> NoDup ((List.filter keep l).*1).
Proof.
  induction l as [|kv l IH]; simpl; intros Hnd; [constructor|].
  apply NoDup_cons in Hnd as [Hfresh Hnd].
  destruct (keep kv); simpl; [|by apply IH].
  apply NoDup_cons; split; [|by apply IH].
  intros Hin. apply Hfresh.
  apply list_elem_of_fmap in Hin as [kv' [-> Hin]].
  apply list_elem_of_fmap. exists kv'. split; [done|].
  apply list_elem_of_In, filter_In in Hin as [Hin _]. by apply list_elem_of_In.
Qed.

Lemma filter_annotations_Some a k v :
  filter_annotations a !! k = Some v <->
  a !! k = Some v /\ startsWith k reserved_prefix = false.
Proof.
  unfold filter_annotations.
  rewrite <- elem_of_list_to_map
    by (apply filter_keys_NoDup, NoDup_fst_map_to_list).
  rewrite list_elem_of_In, filter_In, <- list_elem_of_In, elem_of_map_to_list.
  simpl. by rewrite negb_true_iff.
Qed.

Lemma filter_annotations_lookup a k :
  filter_annotations a !! k =
  if startsWith k reserved_prefix then None else a !! k.
Proof.
  destruct (filter_annotations a !! k) as [v|] eqn:Hf.
  - apply filter_annotations_Some in Hf as [-> ->]. done.
  - destruct (startsWith k reserved_prefix) eqn:Hp; [done|].
    destruct (a !! k) as [v|] eqn:Ha; [|done].
    assert (filter_annotations a !! k = Some v) as Hv
      by (by apply filter_annotations_Some).
    congruence.
Qed.
End Annotations.

Lemma filter_example_annotations :
  filter_annotations example_annotations = {[ "team" := "infra" ]}.
Proof.
  apply map_eq. intros k. rewrite filter_annotations_lookup.
  unfold example_annotations.
  destruct (decide (k = "team")) as [->|Hteam].
  - by vm_compute.
  - rewrite lookup_singleton_ne by done.
    destruct (decide (k = "pv.kubernetes.io/bound-by-controller")) as [->|Hpv].
    + by vm_compute.
    + rewrite lookup_insert_ne, lookup_singleton_ne by done.
      by destruct (startsWith k reserved_prefix).
Qed.

(** What step 3 does once the literal is built: one create call, whatever
    the cluster answers. *)
Lemma step3_run_creates sc pvc body st r rest :
  replacement_claim pvc sc = inr body ->
  writes st = r :: rest ->
  exists resp,
    trace (snd (step3_run sc pvc st)) =
    (trace st ++ [EApi (createNamespacedPersistentVolumeClaim (pvc_namespace pvc) body) resp])%list.
Proof.
  intros Hbody Hw. unfold step3_run. rewrite Hbody.
  unfold bind, api_write. rewrite Hw.
  destruct r as [e|]; simpl; eauto.
Qed.

(** C5: the replacement claim of step 3 carries exactly the source
    annotations whose key does not start with [pv.kubernetes.io/], values
    unchanged; the two-entry example keeps only [team]. *)
Theorem C5_replacement_annotations pvc sc (a : gmap string string) :
  pvc_annotations pvc = Some a ->
  exists body a',
    replacement_claim pvc sc = inr body /\
    (forall st r rest, writes st = r :: rest ->
       exists resp,
         trace (snd (step3_run sc pvc st)) =
         (trace st ++ [EApi (createNamespacedPersistentVolumeClaim (pvc_namespace pvc) body) resp])%list) /\
    pvc_annotations body = Some a' /\
    (forall k, a' !! k = if startsWith k "pv.kubernetes.io/" then None else a !! k) /\
    (a = {[ "pv.kubernetes.io/bound-by-controller" := "yes"; "team" := "infra" ]} ->
     a' = {[ "team" := "infra" ]}).
Proof.
  intros Ha. unfold replacement_claim. rewrite Ha.
  eexists _, (filter_annotations a). split; [reflexivity|].
  split; [|split; [reflexivity|split]].
  - intros st r rest Hw. eapply step3_run_creates; [|exact Hw].
    unfold replacement_claim. by rewrite Ha.
  - apply filter_annotations_lookup.
  - intros ->. apply filter_example_annotations.
Qed.

Lemma C5_replacement_annotations_witness :
  exists body a',
    replacement_claim sample_claim "fast" = inr body /\
    (forall st r rest, writes st = r :: rest ->
       exists resp,
         trace (snd (step3_run "fast" sample_claim st)) =
         (trace st ++ [EApi (createNamespacedPersistentVolumeClaim (pvc_namespace sample_claim) body) resp])%list) /\
    pvc_annotations body = Some a' /\
    (forall k, a' !! k = if startsWith k "pv.kubernetes.io/" then None else example_annotations !! k) /\
    (example_annotations = {[ "pv.kubernetes.io/bound-by-controller" := "yes"; "team" := "infra" ]} ->
     a' = {[ "team" := "infra" ]}).
Proof. apply (C5_replacement_annotations sample_claim "fast" example_annotations). reflexivity. Defined.

(** C6: the claim step 3 sends to the cluster keeps name, namespace and
    labels of the source claim, and its spec is the source spec with
    [storageClassName] set to the target class and [volumeName] unset;
    every other spec field is carried over.  Step 3 sends it with one
    create call in the source claim's namespace, and returns [true] when
    the call is accepted. *)
Theorem C6_replacement_frame pvc sc (a : gmap string string) :
  pvc_annotations pvc = Some a ->
  exists body s,
    replacement_claim pvc sc = inr body /\
    (forall st r rest, writes st = r :: rest ->
       exists resp,
         trace (snd (step3_run sc pvc st)) =
         (trace st ++ [EApi (createNamespacedPersistentVolumeClaim (pvc_namespace pvc) body) resp])%list) /\
    (forall st rest, writes st = None :: rest ->
       fst (step3_run sc pvc st) = Ret true /\
       trace (snd (step3_run sc pvc st)) =
       (trace st ++ [EApi (createNamespacedPersistentVolumeClaim (pvc_namespace pvc) body) RDone])%list) /\
    pvc_name body = pvc_name pvc /\
    pvc_namespace body = pvc_namespace pvc /\
    pvc_labels body = pvc_labels pvc /\
    pvc_spec body = Some s /\
    storageClassName s = Some sc /\
    volumeName s = None /\
    accessModes s = pvc_spec pvc ≫= accessModes /\
    dataSource s = pvc_spec pvc ≫= dataSource /\
    dataSourceRef s = pvc_spec pvc ≫= dataSourceRef /\
    resources s = pvc_spec pvc ≫= resources /\
    selector s = pvc_spec pvc ≫= selector /\
    volumeMode s = pvc_spec pvc ≫= volumeMode.
Proof.
  intros Ha.
  assert (exists body, replacement_claim pvc sc = inr body) as [body Hbody]
    by (unfold replacement_claim; rewrite Ha; eauto).
  pose proof Hbody as Hshape. unfold replacement_claim in Hshape. rewrite Ha in Hshape.
  injection Hshape as Hshape.
  exists body. eexists. split; [exact Hbody|]. split; [|split].
  - intros st r rest Hw. by eapply step3_run_creates.
  - intros st rest Hw. unfold step3_run. rewrite Hbody.
    destruct st; cbn [writes] in Hw; subst. run_handler. split; reflexivity.
  - subst body. cbn. repeat split; by destruct (pvc_spec pvc).
Qed.

Lemma C6_replacement_frame_witness :
  exists body s,
    replacement_claim sample_claim "fast" = inr body /\
    (forall st r rest, writes st = r :: rest ->
       exists resp,
         trace (snd (step3_run "fast" sample_claim st)) =
         (trace st ++ [EApi (createNamespacedPersistentVolumeClaim (pvc_namespace sample_claim) body) resp])%list) /\
    (forall st rest, writes st = None :: rest ->
       fst (step3_run "fast" sample_claim st) = Ret true /\
       trace (snd (step3_run "fast" sample_claim st)) =
       (trace st ++ [EApi (createNamespacedPersistentVolumeClaim (pvc_namespace sample_claim) body) RDone])%list) /\
    pvc_name body = pvc_name sample_claim /\
    pvc_namespace body = pvc_namespace sample_claim /\
    pvc_labels body = pvc_labels sample_claim /\
    pvc_spec body = Some s /\
    storageClassName s = Some "fast" /\
    volumeName s = None /\
    accessModes s = pvc_spec sample_claim ≫= accessModes /\
    dataSource s = pvc_spec sample_claim ≫= dataSource /\
    dataSourceRef s = pvc_spec sample_claim ≫= dataSourceRef /\
    resources s = pvc_spec sample_claim ≫= resources /\
    selector s = pvc_spec sample_claim ≫= selector /\
    volumeMode s = pvc_spec sample_claim ≫= volumeMode.
Proof.
  apply (C6_replacement_frame sample_claim "fast" example_annotations). reflexivity.
Defined.

(** On the sample claim: the literal step 3 builds for the class ["fast"]. *)
Example replacement_of_sample :
  replacement_claim sample_claim "fast" = inr sample_replacement /\
  pvc_spec sample_replacement ≫= storageClassName = Some "fast" /\
  pvc_spec sample_replacement ≫= volumeName = None /\
  pvc_spec sample_replacement ≫= accessModes = Some ["ReadWriteOnce"].
Proof. repeat split. Qed.

(** C9: when the source claim has no annotations map, the action of step 3
    throws before it makes any request, and the step loop reports the step
    as failed and returns [false]: no replacement claim is created. *)
Theorem C9_step3_requires_annotations pvc sc st :
  pvc_annotations pvc = None ->
  (exists e, step3_run sc pvc st = (Throw e, st)) /\
  (forall i d rest others,
     answers st = "Y" :: others ->
     exists e st',
       run_steps i ({| description := d; run := step3_run sc pvc |} :: rest) st =
       (Ret (Some (Some false)), st') /\
       trace st' =
       (trace st ++ [EOutput (MsgReady (S i) d); EInput confirm_prompt "Y"; EStepCall i;
                     EStepThrow i e; EOutput (MsgStepFailed (S i) None)])%list /\
       writes st' = writes st).
Proof.
  intros Ha. split.
  - unfold step3_run, replacement_claim. rewrite Ha. eexists. reflexivity.
  - intros i d rest others Hans. destruct st; simpl in *; subst.
    cbn [run_steps run description]. unfold step3_run, replacement_claim. rewrite Ha.
    run_handler. rewrite <- !app_assoc. simpl. eauto.
Qed.

Lemma C9_step3_requires_annotations_witness :
  exists e, step3_run "fast" bare_claim happy_script = (Throw e, happy_script).
Proof.
  apply (C9_step3_requires_annotations bare_claim "fast" happy_script). reflexivity.
Defined.

(** ** Step 5: the job-completion wait *)

Lemma or_zero_pos c : 0 < or_zero c <-> positive_count c.
Proof.
  unfold positive_count. destruct c as [n|]; simpl.
  - destruct (Z.eqb_spec n 0); split.
    + lia.
    + intros (m & [= <-] & Hm). lia.
    + intros Hn. eauto.
    + intros (m & [= <-] & Hm). done.
  - split; [lia|]. intros (m & Hm & _). discriminate.
Qed.

Lemma job_poll_cases job :
  (positive_count (job_status job ≫= failed) -> job_poll job = Failed) /\
  (~ positive_count (job_status job ≫= failed) ->
   positive_count (job_status job ≫= succeeded) -> job_poll job = Succeeded) /\
  (~ positive_count (job_status job ≫= failed) ->
   ~ positive_count (job_status job ≫= succeeded) -> job_poll job = Pending).
Proof.
  unfold job_poll.
  pose proof (or_zero_pos (job_status job ≫= failed)) as Hf.
  pose proof (or_zero_pos (job_status job ≫= succeeded)) as Hs.
  destruct (Z.gtb_spec (or_zero (job_status job ≫= failed)) 0);
    destruct (Z.gtb_spec (or_zero (job_status job ≫= succeeded)) 0);
    repeat split; intros; try done; exfalso; intuition lia.
Qed.

(** [while (true)], one turn unrolled. *)
Lemma while_true_turn {A} fuel (body : M (option A)) st :
  while_true (S fuel) body st =
  match body st with
  | (Ret (Some a), st') => (Ret a, st')
  | (Ret None, st') => while_true fuel body st'
  | (Throw e, st') => (Throw e, st')
  | (Blocked, st') => (Blocked, st')
  | (OutOfFuel, st') => (OutOfFuel, st')
  end.
Proof.
  cbn [while_true]. unfold bind.
  destruct (body st) as [[[a|]|e| |] st']; reflexivity.
Qed.

(** One turn of the job loop, by what the counters say. *)
Lemma job_wait_body_read runID pvc job st rest :
  job_reads st = inr job :: rest ->
  job_wait_body runID pvc st =
  match job_poll job with
  | Failed => (Ret (Some false), after_job_read runID pvc job st)
  | Succeeded => (Ret (Some true), after_job_read runID pvc job st)
  | Pending => (Ret None, after_job_tick runID pvc job st)
  end.
Proof.
  intros Hreads. destruct st; simpl in *; subst.
  unfold job_wait_body, bind, api_readNamespacedJobStatus. simpl.
  destruct (job_poll job); simpl; try reflexivity.
  unfold after_job_tick. simpl. rewrite <- !app_assoc. reflexivity.
Qed.

Lemma job_wait_turn fuel runID pvc job st rest :
  job_reads st = inr job :: rest ->
  job_wait (S fuel) runID pvc st =
  match job_poll job with
  | Failed => (Ret false, after_job_read runID pvc job st)
  | Succeeded => (Ret true, after_job_read runID pvc job st)
  | Pending => job_wait fuel runID pvc (after_job_tick runID pvc job st)
  end.
Proof.
  intros Hreads. unfold job_wait. rewrite while_true_turn.
  rewrite (job_wait_body_read _ _ _ _ _ Hreads).
  destruct (job_poll job); reflexivity.
Qed.

(** The loop breaks with [succeeded = true] only on a read that polls
    [Succeeded], and that read is the last thing it did. *)
Lemma job_wait_true fuel runID pvc : forall st st',
  job_wait fuel runID pvc st = (Ret true, st') ->
  exists pre job,
    trace st' =
    (pre ++ [EApi (readNamespacedJobStatus (copy_job_name runID) (pvc_namespace pvc))
               (RJob job)])%list /\
    job_poll job = Succeeded.
Proof.
  induction fuel as [|fuel IH]; intros st st' Hrun; [discriminate|].
  destruct (job_reads st) as [|[e|job] rest] eqn:Hreads.
  - unfold job_wait in Hrun. rewrite while_true_turn in Hrun.
    unfold job_wait_body, bind, api_readNamespacedJobStatus in Hrun.
    rewrite Hreads in Hrun. discriminate.
  - unfold job_wait in Hrun. rewrite while_true_turn in Hrun.
    unfold job_wait_body, bind, api_readNamespacedJobStatus in Hrun.
    rewrite Hreads in Hrun. discriminate.
  - rewrite (job_wait_turn _ _ _ _ _ _ Hreads) in Hrun.
    destruct (job_poll job) eqn:Hpoll.
    + by apply IH in Hrun.
    + injection Hrun as <-. eexists _, job. split; [reflexivity|done].
    + discriminate.
Qed.

Lemma step5_true fuel runID pvc st st' :
  step5_run fuel runID pvc st = (Ret true, st') ->
  exists pre job,
    trace st' =
    (pre ++ [EApi (readNamespacedJobStatus (copy_job_name runID) (pvc_namespace pvc))
               (RJob job);
             EOutput MsgNewline])%list /\
    job_poll job = Succeeded.
Proof.
  unfold step5_run, bind. intros Hrun.
  destruct (api_write _ st) as [[[]|e| |] st1]; try discriminate.
  destruct (job_wait fuel runID pvc st1) as [[b|e| |] st2] eqn:Hwait; try discriminate.
  simpl in Hrun. injection Hrun as -> <-.
  apply job_wait_true in Hwait as (pre & job & Htr & Hpoll).
  exists pre, job. simpl. rewrite Htr, <- app_assoc. done.
Qed.

(** C3: each snapshot read by the job loop is judged in a fixed order:
    a positive failed counter ends the loop with failure whatever the
    succeeded counter says, otherwise a positive succeeded counter ends it
    with success, otherwise the loop reports, sleeps and reads again; a
    snapshot with both counters positive is a failure; and step 5 returns
    [true] only after a read that was judged [Succeeded]. *)
Theorem C3_job_wait_order fuel runID pvc :
  (forall job st rest,
     job_reads st = inr job :: rest ->
     (positive_count (job_status job ≫= failed) ->
      job_poll job = Failed /\
      job_wait (S fuel) runID pvc st = (Ret false, after_job_read runID pvc job st)) /\
     (~ positive_count (job_status job ≫= failed) ->
      positive_count (job_status job ≫= succeeded) ->
      job_poll job = Succeeded /\
      job_wait (S fuel) runID pvc st = (Ret true, after_job_read runID pvc job st)) /\
     (~ positive_count (job_status job ≫= failed) ->
      ~ positive_count (job_status job ≫= succeeded) ->
      job_poll job = Pending /\
      job_wait (S fuel) runID pvc st =
      job_wait fuel runID pvc (after_job_tick runID pvc job st))) /\
  (forall f s, 0 < f -> 0 < s -> job_poll (job_with (Some f) (Some s)) = Failed) /\
  (forall st st',
     step5_run fuel runID pvc st = (Ret true, st') ->
     exists pre job,
       trace st' =
       (pre ++ [EApi (readNamespacedJobStatus (copy_job_name runID) (pvc_namespace pvc))
                  (RJob job);
                EOutput MsgNewline])%list /\
       job_poll job = Succeeded).
Proof.
  split; [|split].
  - intros job st rest Hreads.
    pose proof (job_wait_turn fuel runID pvc job st rest Hreads) as Hturn.
    destruct (job_poll_cases job) as (HF & HS & HP).
    repeat split; intros.
    + by apply HF.
    + rewrite Hturn, HF; done.
    + by apply HS.
    + rewrite Hturn, HS; done.
    + by apply HP.
    + rewrite Hturn, HP; done.
  - intros f s Hf Hs. apply job_poll_cases. exists f. done.
  - apply step5_true.
Qed.

Lemma C3_job_wait_order_witness :
  job_poll (job_with (Some 1) (Some 1)) = Failed /\
  job_poll (job_with (Some 0) (Some 1)) = Succeeded /\
  result_of (step5_run 2 "run-1" sample_claim) happy_script = Ret true.
Proof.
  destruct (C3_job_wait_order 0 "run-1" sample_claim) as (Hturn & Hboth & Honly).
  split; [|split].
  - apply (Hboth 1 1); lia.
  - destruct (Hturn (job_with (Some 0) (Some 1))
                {| pod_lists := []; pv_lists := []; pvc_reads := [];
                   job_reads := [inr (job_with (Some 0) (Some 1))]; writes := [];
                   answers := []; pods := []; trace := [] |} [] eq_refl)
      as (_ & Hs & _).
    apply Hs.
    + intros (n & [= <-] & Hn). lia.
    + exists 1. split; [reflexivity|lia].
  - reflexivity.
Defined.

(** ** Missing counters *)

Lemma counters_missing_pending job : counters_missing job -> job_poll job = Pending.
Proof.
  unfold job_poll. intros [Hs|[Hf Hs]].
  - rewrite Hs. reflexivity.
  - rewrite Hf, Hs. reflexivity.
Qed.

Lemma job_wait_only_missing fuel runID pvc : forall st,
  Forall (fun r => exists job, r = inr job /\ counters_missing job) (job_reads st) ->
  forall b st', job_wait fuel runID pvc st <> (Ret b, st').
Proof.
  induction fuel as [|fuel IH]; intros st Hall b st'; [discriminate|].
  destruct (job_reads st) as [|r rest] eqn:Hreads.
  - unfold job_wait. rewrite while_true_turn.
    unfold job_wait_body, bind, api_readNamespacedJobStatus. rewrite Hreads. discriminate.
  - apply Forall_cons in Hall as [(job & -> & Hmiss) Hrest].
    rewrite (job_wait_turn _ _ _ _ _ _ Hreads), (counters_missing_pending _ Hmiss).
    apply IH. simpl. by rewrite Hreads.
Qed.

(** C10: a job snapshot without a status, or without both counters, counts
    as failed 0 and succeeded 0: it is judged [Pending], the loop reports,
    sleeps and reads again, and however many such snapshots it reads it
    does not end. *)
Theorem C10_missing_counters_pending fuel runID pvc job :
  counters_missing job ->
  or_zero (job_status job ≫= failed) = 0 /\
  or_zero (job_status job ≫= succeeded) = 0 /\
  job_poll job = Pending /\
  (forall st rest,
     job_reads st = inr job :: rest ->
     job_wait (S fuel) runID pvc st =
     job_wait fuel runID pvc (after_job_tick runID pvc job st)) /\
  (forall st,
     Forall (fun r => exists j, r = inr j /\ counters_missing j) (job_reads st) ->
     forall b st', job_wait fuel runID pvc st <> (Ret b, st')).
Proof.
  intros Hmiss. split; [|split; [|split; [|split]]].
  - destruct Hmiss as [->|[-> _]]; reflexivity.
  - destruct Hmiss as [->|[_ ->]]; reflexivity.
  - by apply counters_missing_pending.
  - intros st rest Hreads.
    by rewrite (job_wait_turn _ _ _ _ _ _ Hreads), counters_missing_pending.
  - apply job_wait_only_missing.
Qed.

Lemma C10_missing_counters_pending_witness :
  job_poll job_without_status = Pending /\ job_poll (job_with None None) = Pending.
Proof.
  split.
  - apply (C10_missing_counters_pending 0 "run-1" sample_claim job_without_status).
    left. reflexivity.
  - apply (C10_missing_counters_pending 0 "run-1" sample_claim (job_with None None)).
    right. split; reflexivity.
Defined.

(** ** Step 2: the deletion wait *)

Section DeletionWait.
Variables namespaceName pvcName : string.
Variable pvc : V1PersistentVolumeClaim.

Local Abbreviation body := (deletion_wait_body namespaceName pvcName pvc).
Local Abbreviation wait fuel := (deletion_wait fuel namespaceName pvcName pvc).
Local Abbreviation turn := (after_deletion_turn namespaceName pvcName pvc).

(** The claim is still there: report, read, sleep, go round again. *)
Lemma deletion_body_exists st items prest c crest :
  pod_lists st = inr items :: prest ->
  pvc_reads st = inr c :: crest ->
  body st = (Ret None, turn items (RClaim c) [ESleep 1000] st).
Proof.
  intros Hpods Hreads. destruct st; simpl in *; subst.
  unfold deletion_wait_body, after_deletion_turn, deletion_turn_events. run_handler.
  rewrite <- !app_assoc. reflexivity.
Qed.

(** The read fails: a 404 breaks out of the loop, anything else is
    dropped and the turn ends like one where the claim is still there. *)
Lemma deletion_body_error st items prest e crest :
  pod_lists st = inr items :: prest ->
  pvc_reads st = inl e :: crest ->
  body st =
  if is_not_found e
  then (Ret (Some tt), turn items (RError e) [] st)
  else (Ret None, turn items (RError e) [ESleep 1000] st).
Proof.
  intros Hpods Hreads. destruct st; simpl in *; subst.
  unfold deletion_wait_body, after_deletion_turn, deletion_turn_events. run_handler.
  destruct (is_not_found e); cbn; rewrite <- !app_assoc; reflexivity.
Qed.

(** The loop ends normally only right after a read that failed with 404. *)
Lemma deletion_wait_returns fuel : forall st st',
  wait fuel st = (Ret tt, st') ->
  exists pre e,
    trace st' =
    (pre ++ [EApi (readNamespacedPersistentVolumeClaim (pvc_name pvc) (pvc_namespace pvc))
               (RError e)])%list /\
    is_not_found e = true.
Proof.
  induction fuel as [|fuel IH]; intros st st' Hrun; [discriminate|].
  unfold deletion_wait in Hrun. rewrite while_true_turn in Hrun.
  destruct (pod_lists st) as [|[e|items] prest] eqn:Hpods.
  1,2: unfold deletion_wait_body in Hrun; run_handler_in Hrun;
       rewrite Hpods in Hrun; discriminate.
  destruct (pvc_reads st) as [|[e|c] crest] eqn:Hreads.
  - unfold deletion_wait_body in Hrun. run_handler_in Hrun.
    rewrite Hpods in Hrun. cbn in Hrun. rewrite Hreads in Hrun. discriminate.
  - rewrite (deletion_body_error _ _ _ _ _ Hpods Hreads) in Hrun.
    destruct (is_not_found e) eqn:Hnf.
    + injection Hrun as <-.
      eexists (trace st ++ [_; _; _; _])%list, e. split; [|done].
      unfold after_deletion_turn, deletion_turn_events. simpl. rewrite <- app_assoc. reflexivity.
    + by apply IH in Hrun.
  - rewrite (deletion_body_exists _ _ _ _ _ Hpods Hreads) in Hrun.
    by apply IH in Hrun.
Qed.

(** C1 (as the code has it): a read of the claim that fails with anything
    but 404 is not propagated: it is caught and dropped, and the turn ends
    like a turn in which the claim is still there, with a sleep and
    another turn of the loop.  Only a 404 ends the loop with success: a 404
    ends it normally at once, and whenever the loop ends normally the last
    thing it did was a claim read answered 404. *)
Theorem C1_deletion_wait_drops_errors fuel :
  (forall st items prest e crest,
     pod_lists st = inr items :: prest ->
     pvc_reads st = inl e :: crest ->
     is_not_found e = false ->
     wait (S fuel) st = wait fuel (turn items (RError e) [ESleep 1000] st)) /\
  (forall st items prest c crest,
     pod_lists st = inr items :: prest ->
     pvc_reads st = inr c :: crest ->
     wait (S fuel) st = wait fuel (turn items (RClaim c) [ESleep 1000] st)) /\
  (forall st items prest e crest,
     pod_lists st = inr items :: prest ->
     pvc_reads st = inl e :: crest ->
     is_not_found e = true ->
     wait (S fuel) st = (Ret tt, turn items (RError e) [] st)) /\
  (forall st st',
     wait fuel st = (Ret tt, st') ->
     exists pre e,
       trace st' =
       (pre ++ [EApi (readNamespacedPersistentVolumeClaim (pvc_name pvc) (pvc_namespace pvc))
                  (RError e)])%list /\
       is_not_found e = true).
Proof.
  split; [|split; [|split]].
  - intros st items prest e crest Hpods Hreads Hnf.
    unfold deletion_wait. rewrite while_true_turn.
    rewrite (deletion_body_error _ _ _ _ _ Hpods Hreads), Hnf. reflexivity.
  - intros st items prest c crest Hpods Hreads.
    unfold deletion_wait. rewrite while_true_turn.
    rewrite (deletion_body_exists _ _ _ _ _ Hpods Hreads). reflexivity.
  - intros st items prest e crest Hpods Hreads Hnf.
    unfold deletion_wait. rewrite while_true_turn.
    rewrite (deletion_body_error _ _ _ _ _ Hpods Hreads), Hnf. reflexivity.
  - apply deletion_wait_returns.
Qed.

(** C7 (as the code has it): on the reads [exists, exists, Not-Found] the
    loop writes its progress line three times, once before each read,
    sleeps twice, and ends normally on the third read. *)
Theorem C7_deletion_wait_three_reads fuel st p1 p2 p3 prest c1 c2 reason crest :
  pod_lists st = inr p1 :: inr p2 :: inr p3 :: prest ->
  pvc_reads st = inr c1 :: inr c2 :: inl (HttpError 404 reason) :: crest ->
  exists st' evs,
    wait (3 + fuel) st = (Ret tt, st') /\
    trace st' = (trace st ++ evs)%list /\
    count is_deletion_progress evs = 3%nat /\
    count is_sleep evs = 2%nat /\
    count is_claim_read evs = 3%nat /\
    pvc_reads st' = crest.
Proof.
  intros Hpods Hreads.
  set (gone := RError (HttpError 404 reason)).
  set (st1 := turn p1 (RClaim c1) [ESleep 1000] st).
  set (st2 := turn p2 (RClaim c2) [ESleep 1000] st1).
  set (st3 := turn p3 gone [] st2).
  assert (pod_lists st1 = inr p2 :: inr p3 :: prest) as Hpods1
    by (simpl; by rewrite Hpods).
  assert (pvc_reads st1 = inr c2 :: inl (HttpError 404 reason) :: crest) as Hreads1
    by (simpl; by rewrite Hreads).
  assert (pod_lists st2 = inr p3 :: prest) as Hpods2
    by (simpl; by rewrite Hpods).
  assert (pvc_reads st2 = inl (HttpError 404 reason) :: crest) as Hreads2
    by (simpl; by rewrite Hreads).
  exists st3,
    (deletion_turn_events namespaceName pvcName pvc p1 (RClaim c1) ++ [ESleep 1000] ++
     deletion_turn_events namespaceName pvcName pvc p2 (RClaim c2) ++ [ESleep 1000] ++
     deletion_turn_events namespaceName pvcName pvc p3 gone)%list.
  split; [|split; [|split; [|split; [|split]]]].
  - unfold deletion_wait. cbn [Nat.add].
    rewrite while_true_turn, (deletion_body_exists _ _ _ _ _ Hpods Hreads). fold st1.
    rewrite while_true_turn, (deletion_body_exists _ _ _ _ _ Hpods1 Hreads1). fold st2.
    rewrite while_true_turn, (deletion_body_error _ _ _ _ _ Hpods2 Hreads2).
    reflexivity.
  - simpl. rewrite <- !app_assoc. reflexivity.
  - reflexivity.
  - reflexivity.
  - reflexivity.
  - simpl. by rewrite Hreads.
Qed.
End DeletionWait.

Lemma C1_deletion_wait_drops_errors_witness :
  deletion_wait 2 "apps" "data" sample_claim flaky_script =
  deletion_wait 1 "apps" "data" sample_claim
    (after_deletion_turn "apps" "data" sample_claim []
       (RError (HttpError 500 "internal error")) [ESleep 1000] flaky_script).
Proof.
  destruct (C1_deletion_wait_drops_errors "apps" "data" sample_claim 1) as (Hdrop & _).
  exact (Hdrop flaky_script [] _ (HttpError 500 "internal error") _ eq_refl eq_refl eq_refl).
Defined.

(** C1 as stated fails: on the reads [500, Not-Found] the 500 does not come
    out of the loop; the loop ends normally at the next read. *)
Lemma C1_counterexample :
  result_of (deletion_wait 2 "apps" "data" sample_claim) flaky_script = Ret tt /\
  result_of (deletion_wait 2 "apps" "data" sample_claim) flaky_script <>
  Throw (HttpError 500 "internal error").
Proof. split; [vm_compute; reflexivity|vm_compute; discriminate]. Qed.

Lemma C7_deletion_wait_three_reads_witness :
  exists st' evs,
    deletion_wait 3 "apps" "data" sample_claim deletion_script = (Ret tt, st') /\
    trace st' = (trace deletion_script ++ evs)%list /\
    count is_deletion_progress evs = 3%nat /\
    count is_sleep evs = 2%nat /\
    count is_claim_read evs = 3%nat /\
    pvc_reads st' = [].
Proof.
  exact (C7_deletion_wait_three_reads "apps" "data" sample_claim 0 deletion_script
           [] [] [] [] sample_claim sample_claim "not found" [] eq_refl eq_refl).
Defined.

(** C7 as stated fails: on [exists, exists, Not-Found] the loop does end
    normally on the third read, but it has written three progress lines,
    not two. *)
Lemma C7_counterexample :
  ~ (result_of (deletion_wait 3 "apps" "data" sample_claim) deletion_script = Ret tt /\
     count is_deletion_progress
       (events_of (deletion_wait 3 "apps" "data" sample_claim) deletion_script) = 2%nat).
Proof. intros [_ Hcount]. vm_compute in Hcount. discriminate. Qed.

(** ** Silent computations: the step actions never touch the loop's events *)

Lemma silent_ret {A} (a : A) : silent (ret a).
Proof. intros st. exists []. split; [by rewrite app_nil_r|constructor]. Qed.

Lemma silent_throw {A} (e : Err) : silent (@throw A e).
Proof. intros st. exists []. split; [by rewrite app_nil_r|constructor]. Qed.

Lemma silent_bind {A B} (m : M A) (k : A -> M B) :
  silent m -> (forall a, silent (k a)) -> silent (bind m k).
Proof.
  intros Hm Hk st. unfold bind.
  destruct (Hm st) as (evs1 & Htr1 & Hq1).
  destruct (m st) as [[a|e| |] st1]; simpl in *; eauto.
  destruct (Hk a st1) as (evs2 & Htr2 & Hq2).
  exists (evs1 ++ evs2)%list. split.
  - by rewrite Htr2, Htr1, app_assoc.
  - by apply Forall_app.
Qed.

Lemma silent_try_catch {A} (m : M A) (handler : Err -> M A) :
  silent m -> (forall e, silent (handler e)) -> silent (try_catch m handler).
Proof.
  intros Hm Hh st. unfold try_catch.
  destruct (Hm st) as (evs1 & Htr1 & Hq1).
  destruct (m st) as [[a|e| |] st1]; simpl in *; eauto.
  destruct (Hh e st1) as (evs2 & Htr2 & Hq2).
  exists (evs1 ++ evs2)%list. split.
  - by rewrite Htr2, Htr1, app_assoc.
  - by apply Forall_app.
Qed.

Lemma silent_while_true {A} (fuel : nat) (body : M (option A)) :
  silent body -> silent (while_true fuel body).
Proof.
  intros Hbody. induction fuel as [|fuel IH]; simpl.
  - intros st. exists []. split; [by rewrite app_nil_r|constructor].
  - apply silent_bind; [done|]. intros [a|]; [apply silent_ret|done].
Qed.
Lemma silent_emit e : is_loop_event e = false -> silent (emit e).
Proof. intros He st. exists [e]. split; [done|]. by constructor. Qed.

Lemma silent_set_pods ps : silent (set_pods ps).
Proof. intros st. exists []. split; [by rewrite app_nil_r|constructor]. Qed.

Lemma silent_get_pods : silent get_pods.
Proof. intros st. exists []. split; [by rewrite app_nil_r|constructor]. Qed.

Lemma silent_settle {A} call (wrap : A -> Response) r : silent (settle call wrap r).
Proof.
  destruct r as [e|a]; simpl;
    (apply silent_bind; [by apply silent_emit|intros _]);
    [apply silent_throw|apply silent_ret].
Qed.

(** A call that takes its outcome from a script is silent whatever the
    script holds. *)
Ltac silent_call script :=
  let st := fresh "st" in
  let r := fresh "r" in
  let rest := fresh "rest" in
  intros st; hnf;
  destruct (script st) as [|r rest];
  [ exists []; split; [by rewrite app_nil_r|constructor]
  | match goal with
    | |- context [settle ?call ?wrap ?x ?s] => exact (silent_settle call wrap x s)
    end ].

Lemma silent_listNamespacedPod ns : silent (api_listNamespacedPod ns).
Proof. unfold api_listNamespacedPod. silent_call pod_lists. Qed.

Lemma silent_listPersistentVolume : silent api_listPersistentVolume.
Proof. unfold api_listPersistentVolume. silent_call pv_lists. Qed.

Lemma silent_readNamespacedPersistentVolumeClaim name ns :
  silent (api_readNamespacedPersistentVolumeClaim name ns).
Proof. unfold api_readNamespacedPersistentVolumeClaim. silent_call pvc_reads. Qed.

Lemma silent_readNamespacedJobStatus name ns : silent (api_readNamespacedJobStatus name ns).
Proof. unfold api_readNamespacedJobStatus. silent_call job_reads. Qed.

Lemma silent_write call : silent (api_write call).
Proof. unfold api_write. silent_call writes. Qed.

Create HintDb silent.
#[local] Hint Resolve silent_ret silent_throw silent_set_pods silent_get_pods
  silent_listNamespacedPod silent_listPersistentVolume
  silent_readNamespacedPersistentVolumeClaim silent_readNamespacedJobStatus
  silent_write : silent.

(** Decompose a computation written with the handler's combinators. *)
Ltac silent_steps :=
  repeat first
    [ progress auto with silent
    | apply silent_bind; [|intros ?]
    | apply silent_try_catch; [|intros ?]
    | apply silent_while_true
    | apply silent_emit; reflexivity
    | match goal with
      | |- silent (match ?x with _ => _ end) => destruct x
      end ].

Lemma silent_getPodsMountingPVC name ns : silent (getPodsMountingPVC name ns).
Proof. unfold getPodsMountingPVC. silent_steps. Qed.

Lemma silent_getPVForPVC pvc : silent (getPVForPVC pvc).
Proof. unfold getPVForPVC. silent_steps. Qed.

#[local] Hint Resolve silent_getPodsMountingPVC silent_getPVForPVC : silent.

Lemma silent_print_plan plan : forall i, silent (print_plan i plan).
Proof.
  induction plan as [|step rest IH]; intros i; simpl; [apply silent_ret|].
  apply silent_bind; [by apply silent_emit|]. intros _. apply IH.
Qed.

Lemma steps_silent fuel runID namespaceName newStorageClassName pvcName pvc pv :
  Forall (fun step => silent (run step))
    (steps fuel runID namespaceName newStorageClassName pvcName pvc pv).
Proof.
  unfold steps. repeat constructor; simpl.
  - unfold step1_run. silent_steps.
  - unfold step2_run, deletion_wait, deletion_wait_body, output, sleep. silent_steps.
  - unfold step3_run. silent_steps.
  - unfold step4_run. silent_steps.
  - unfold step5_run, job_wait, job_wait_body, output, sleep. silent_steps.
  - unfold step6_run. silent_steps.
Qed.

(** ** The state machine of the step loop *)

Lemma monitor_app s l1 l2 :
  monitor s (l1 ++ l2) = monitor s l1 ≫= fun s' => monitor s' l2.
Proof.
  revert s. induction l1 as [|e l1 IH]; intros s; simpl; [done|].
  destruct (phase_step s e); [apply IH|done].
Qed.

Lemma phase_step_quiet s e : idle s -> is_loop_event e = false -> phase_step s e = Some s.
Proof. destruct s, e; simpl; try done. Qed.

Lemma monitor_quiet s evs : idle s -> quiet evs -> monitor s evs = Some s.
Proof.
  intros Hidle. induction 1 as [|e evs He _ IH]; simpl; [done|].
  by rewrite phase_step_quiet.
Qed.

(** After a declined prompt nothing is accepted; after a failed step only
    quiet events are. *)
Lemma monitor_declined l s : monitor Declined l = Some s -> l = [].
Proof. destruct l; [done|discriminate]. Qed.

Lemma monitor_halted l : forall s, monitor Halted l = Some s -> s = Halted /\ quiet l.
Proof.
  induction l as [|e l IH]; intros s Hs; cbn [monitor] in Hs.
  - split; [congruence|constructor].
  - destruct (is_loop_event e) eqn:He.
    + destruct e; simpl in *; discriminate.
    + rewrite phase_step_quiet in Hs by done.
      apply IH in Hs as [-> Hq]. split; [done|]. by constructor.
Qed.

Lemma phase_step_failure s e s' :
  phase_step s e = Some s' -> is_step_failure e = true -> s' = Halted.
Proof.
  destruct s, e as [| | | | | |j|j [|]|j err]; simpl; try discriminate;
    destruct (Nat.eqb _ _); congruence.
Qed.

Lemma phase_step_call s j s' :
  phase_step s (EStepCall j) = Some s' -> s = Confirmed j /\ s' = Running j.
Proof.
  destruct s as [i|i|i| |]; simpl; try discriminate.
  destruct (Nat.eqb_spec i j); [|discriminate]. intros [= <-]. by subst.
Qed.

Lemma phase_step_declined s p a s' :
  phase_step s (EInput p a) = Some s' -> a <> "Y" -> s' = Declined.
Proof.
  destruct s as [i|i|i| |]; simpl; try discriminate.
  destruct (String.eqb p confirm_prompt); [|discriminate].
  destruct (String.eqb_spec a "Y"); congruence.
Qed.

Lemma monitor_history l : forall s,
  monitor (Awaiting 0) l = Some s -> history s l.
Proof.
  induction l as [|e l IH] using rev_ind; intros s Hmon.
  { injection Hmon as <-. exact I. }
  rewrite monitor_app in Hmon.
  destruct (monitor (Awaiting 0) l) as [s1|] eqn:Hl; [|discriminate].
  simpl in Hmon. destruct (phase_step s1 e) as [s2|] eqn:Hstep; [|discriminate].
  injection Hmon as <-. specialize (IH s1 eq_refl).
  destruct s1 as [i|i|i| |]; simpl in Hstep.
  - (* Awaiting i *)
    destruct e; simpl in Hstep; try (injection Hstep as <-);
      try discriminate;
      try (destruct i as [|i]; [exact I|];
           destruct IH as (a & b & c & ->); exists a, b; eexists;
           rewrite <- !app_assoc; simpl; rewrite <- app_assoc; reflexivity).
    destruct (String.eqb_spec prompt confirm_prompt) as [->|]; [|discriminate].
    injection Hstep as <-.
    destruct (String.eqb_spec answer "Y") as [->|]; [|exact I].
    split; [eauto|].
    destruct i as [|i]; [exact I|].
    destruct IH as (a & b & c & ->). exists a, b. eexists.
    rewrite <- !app_assoc; simpl; rewrite <- app_assoc; reflexivity.
  - (* Confirmed i *)
    destruct e; try discriminate.
    destruct (Nat.eqb_spec i i0); [|discriminate]. injection Hstep as <-. subst.
    exists l, []. reflexivity.
  - (* Running i *)
    destruct IH as (a & b & ->).
    destruct e; simpl in Hstep; try (injection Hstep as <-); try discriminate;
      try (exists a; eexists; rewrite <- app_assoc; reflexivity).
    + destruct (Nat.eqb_spec i i0); [|discriminate]. injection Hstep as <-. subst.
      destruct successful; [|exact I].
      exists a, b, []. rewrite <- app_assoc. reflexivity.
    + destruct (Nat.eqb_spec i i0); [|discriminate]. injection Hstep as <-. exact I.
  - discriminate.
  - destruct (is_loop_event e); [discriminate|]. injection Hstep as <-. exact I.
Qed.

Lemma count_cons p e l :
  count p (e :: l) = ((if p e then 1 else 0) + count p l)%nat.
Proof. unfold count. simpl. by destruct (p e). Qed.

Lemma count_app p l1 l2 : count p (l1 ++ l2) = (count p l1 + count p l2)%nat.
Proof. unfold count. by rewrite List.filter_app, length_app. Qed.

(** From any phase on, the action of a step is called at most once, and
    only if the phase still allows it. *)
Lemma monitor_calls_once j l : forall s s',
  monitor s l = Some s' ->
  (count (is_step_call j) l <= if may_call s j then 1 else 0)%nat.
Proof.
  induction l as [|e l IH]; intros s s' Hmon.
  { unfold count. simpl. lia. }
  simpl in Hmon. destruct (phase_step s e) as [s1|] eqn:Hstep; [|discriminate].
  specialize (IH s1 s' Hmon). rewrite count_cons.
  assert ((if is_step_call j e then 1 else 0) + (if may_call s1 j then 1 else 0)
          <= if may_call s j then 1 else 0)%nat as Hle; [|lia].
  clear IH Hmon.
  destruct s as [i|i|i| |], e as [| | | | |p a|k|k ok|k err]; simpl in Hstep;
    try discriminate; try (injection Hstep as <-; simpl; lia).
  - destruct (String.eqb p confirm_prompt); [|discriminate].
    injection Hstep as <-. destruct (String.eqb a "Y"); simpl; [lia|].
    destruct (Nat.leb i j); lia.
  - destruct (Nat.eqb_spec i k); [|discriminate]. injection Hstep as <-. subst.
    simpl. destruct (Nat.eqb_spec j k), (Nat.leb_spec k j), (Nat.ltb_spec k j); lia.
  - destruct (Nat.eqb_spec i k); [|discriminate]. injection Hstep as <-. subst.
    destruct ok; cbn [may_call is_step_call]; unfold Nat.ltb;
      destruct (Nat.leb (S k) j); lia.
  - destruct (Nat.eqb_spec i k); [|discriminate]. injection Hstep as <-.
    simpl. destruct (Nat.ltb i j); lia.
Qed.

(** ** One turn of the step loop *)

(** The loop at step [i], by what the operator types and how the action
    ends. *)
Lemma run_steps_turn i step rest st :
  run_steps i (step :: rest) st =
  match answers st with
  | [] => (Blocked, log [EOutput (MsgReady (S i) (description step))] st)
  | answer :: _ =>
      if String.eqb answer "Y" then
        match run step
                (log [EOutput (MsgReady (S i) (description step));
                      EInput confirm_prompt answer; EStepCall i] (answered st)) with
        | (Ret true, st') =>
            run_steps (S i) rest
              (log [EStepReturn i true; EOutput (MsgStepSuccessful (S i))] st')
        | (Ret false, st') =>
            (Ret (Some (Some false)),
             log [EStepReturn i false; EOutput (MsgStepFailed (S i) None)] st')
        | (Throw e, st') =>
            (Ret (Some (Some false)),
             log [EStepThrow i e; EOutput (MsgStepFailed (S i) (error_detail e))] st')
        | (Blocked, st') => (Blocked, st')
        | (OutOfFuel, st') => (OutOfFuel, st')
        end
      else
        (Ret (Some None),
         log [EOutput (MsgReady (S i) (description step)); EInput confirm_prompt answer]
           (answered st))
  end.
Proof.
  cbn [run_steps]. run_handler. unfold log, answered.
  destruct (answers st) as [|answer others]; [reflexivity|]. cbn.
  destruct (String.eqb answer "Y"); cbn.
  - rewrite <- !app_assoc. cbn.
    destruct (run step _) as [[[|]|e| |] st']; cbn; rewrite <- ?app_assoc; reflexivity.
  - rewrite <- !app_assoc. reflexivity.
Qed.

Lemma run_steps_monitored plan :
  Forall (fun step => silent (run step)) plan ->
  forall i, monitored (Awaiting i) (run_steps i plan) (steps_post (i + length plan)).
Proof.
  induction 1 as [|step rest Hstep _ IH]; intros i st.
  { exists [], (Awaiting i). simpl. rewrite app_nil_r, Nat.add_0_r.
    split; [done|split; [done|]]. split; [by left|done]. }
  rewrite run_steps_turn.
  set (ready := EOutput (MsgReady (S i) (description step))).
  destruct (answers st) as [|answer others] eqn:Hans.
  { exists [ready], (Awaiting i).
    split; [done|split; [done|]]. split; [by right|discriminate]. }
  destruct (String.eqb_spec answer "Y") as [->|Hno]; cycle 1.
  { exists [ready; EInput confirm_prompt answer], Declined. simpl.
    apply String.eqb_neq in Hno. rewrite Hno.
    split; [done|split; [done|]]. split; [done|discriminate]. }
  set (st1 := log [ready; EInput confirm_prompt "Y"; EStepCall i] (answered st)).
  destruct (Hstep st1) as (q & Hq & Hquiet).
  assert (monitor (Awaiting i) ([ready; EInput confirm_prompt "Y"; EStepCall i] ++ q)
          = Some (Running i)) as Hrunning.
  { rewrite monitor_app. simpl. rewrite Nat.eqb_refl. simpl.
    by apply monitor_quiet. }
  assert (trace (run step st1).2
          = (trace st ++ [ready; EInput confirm_prompt "Y"; EStepCall i] ++ q)%list) as Htr.
  { rewrite Hq. unfold st1. simpl. by rewrite <- app_assoc. }
  destruct (run step st1) as [[[|]|e| |] st2]; simpl in Htr.
  - (* the action returned true *)
    set (st3 := log [EStepReturn i true; EOutput (MsgStepSuccessful (S i))] st2).
    destruct (IH (S i) st3) as (evs & s & Hevs & Hmon & Hpost).
    exists (([ready; EInput confirm_prompt "Y"; EStepCall i] ++ q) ++
            [EStepReturn i true; EOutput (MsgStepSuccessful (S i))] ++ evs)%list, s.
    split; [|split].
    + rewrite Hevs. unfold st3. simpl. rewrite Htr, <- !app_assoc. reflexivity.
    + rewrite monitor_app, Hrunning. simpl. rewrite Nat.eqb_refl. exact Hmon.
    + replace (i + length (step :: rest))%nat with (S i + length rest)%nat
        by (simpl; lia). exact Hpost.
  - (* it returned false *)
    exists (([ready; EInput confirm_prompt "Y"; EStepCall i] ++ q) ++
            [EStepReturn i false; EOutput (MsgStepFailed (S i) None)])%list, Halted.
    split; [|split].
    + simpl. rewrite Htr, <- !app_assoc. reflexivity.
    + rewrite monitor_app, Hrunning. simpl. by rewrite Nat.eqb_refl.
    + split; [reflexivity|discriminate].
  - (* it threw *)
    exists (([ready; EInput confirm_prompt "Y"; EStepCall i] ++ q) ++
            [EStepThrow i e; EOutput (MsgStepFailed (S i) (error_detail e))])%list, Halted.
    split; [|split].
    + simpl. rewrite Htr, <- !app_assoc. reflexivity.
    + rewrite monitor_app, Hrunning. simpl. by rewrite Nat.eqb_refl.
    + split; [reflexivity|discriminate].
  - exists ([ready; EInput confirm_prompt "Y"; EStepCall i] ++ q)%list, (Running i).
    split; [done|split; [done|]]. split; [by left|discriminate].
  - exists ([ready; EInput confirm_prompt "Y"; EStepCall i] ++ q)%list, (Running i).
    split; [done|split; [done|]]. split; [by right|discriminate].
Qed.

(** ** The whole handler against the state machine *)

Lemma monitored_ret {A} s (a : A) (Q : Phase -> Outcome A -> Prop) :
  Q s (Ret a) -> monitored s (ret a) Q.
Proof. intros HQ st. exists [], s. simpl. by rewrite app_nil_r. Qed.

Lemma monitored_silent {A} s (m : M A) (Q : Phase -> Outcome A -> Prop) :
  idle s -> silent m -> (forall r, Q s r) -> monitored s m Q.
Proof.
  intros Hidle Hm HQ st. destruct (Hm st) as (evs & Htr & Hq).
  exists evs, s. split; [done|]. split; [by apply monitor_quiet|apply HQ].
Qed.

Lemma monitored_bind {A B} s0 (m : M A) (k : A -> M B)
    (Q1 : Phase -> Outcome A -> Prop) (Q2 : Phase -> Outcome B -> Prop) :
  monitored s0 m Q1 ->
  (forall a s1, Q1 s1 (Ret a) -> monitored s1 (k a) Q2) ->
  (forall s1 e, Q1 s1 (Throw e) -> Q2 s1 (Throw e)) ->
  (forall s1, Q1 s1 Blocked -> Q2 s1 Blocked) ->
  (forall s1, Q1 s1 OutOfFuel -> Q2 s1 OutOfFuel) ->
  monitored s0 (bind m k) Q2.
Proof.
  intros Hm Hk Hthrow Hblocked Hfuel st. unfold bind.
  destruct (Hm st) as (evs1 & s1 & Htr1 & Hmon1 & HQ1).
  destruct (m st) as [[a|e| |] st1]; simpl in *.
  - destruct (Hk a s1 HQ1 st1) as (evs2 & s2 & Htr2 & Hmon2 & HQ2).
    exists (evs1 ++ evs2)%list, s2. split; [|split; [|done]].
    + by rewrite Htr2, Htr1, app_assoc.
    + by rewrite monitor_app, Hmon1.
  - exists evs1, s1. auto.
  - exists evs1, s1. auto.
  - exists evs1, s1. auto.
Qed.

(** A silent computation followed by a monitored one, before the first
    prompt is answered or after the last step. *)
Lemma monitored_after_silent {A} i (m : M A) (k : A -> M (option bool)) :
  silent m ->
  (forall a, monitored (Awaiting i) (k a) handler_result) ->
  monitored (Awaiting i) (bind m k) handler_result.
Proof.
  intros Hm Hk.
  apply monitored_bind with (Q1 := fun s _ => s = Awaiting i).
  - by apply monitored_silent.
  - intros a s1 ->. apply Hk.
  - by intros s1 e ->.
  - by intros s1 ->.
  - by intros s1 ->.
Qed.

Ltac after_silent :=
  apply monitored_after_silent; [silent_steps; fail|intros ?].

Theorem handler_monitored fuel runID namespaceName newStorageClassName pvcName :
  monitored (Awaiting 0)
    (handler fuel runID namespaceName newStorageClassName pvcName) handler_result.
Proof.
  unfold handler, output.
  after_silent. after_silent. after_silent. after_silent. after_silent.
  after_silent. after_silent.
  match goal with |- monitored _ (match ?pv with _ => _ end) _ => destruct pv as [pv|] end;
    [|by apply monitored_ret].
  after_silent. after_silent. after_silent. after_silent. after_silent.
  apply monitored_after_silent; [apply silent_print_plan|intros _].
  after_silent.
  eapply monitored_bind.
  - apply run_steps_monitored, steps_silent.
  - intros [v|] s1 [Hres Hlast].
    + apply monitored_ret. destruct s1; simpl in *; try done; congruence.
    + rewrite (Hlast eq_refl). apply monitored_silent; [done| |done]. silent_steps.
  - intros s1 e [Hres _]. destruct s1; simpl in *; try done; destruct Hres; done.
  - intros s1 [Hres _]. destruct s1; simpl in *; try done.
  - intros s1 [Hres _]. destruct s1; simpl in *; try done.
Qed.

(** The events of a run are accepted from [Awaiting 0] on. *)
Lemma handler_events fuel runID namespaceName newStorageClassName pvcName st :
  exists s,
    monitor (Awaiting 0)
      (events_of (handler fuel runID namespaceName newStorageClassName pvcName) st) = Some s /\
    handler_result s
      (result_of (handler fuel runID namespaceName newStorageClassName pvcName) st).
Proof.
  destruct (handler_monitored fuel runID namespaceName newStorageClassName pvcName (fresh st))
    as (evs & s & Htr & Hmon & Hres).
  exists s. unfold events_of, result_of. rewrite Htr. simpl. done.
Qed.

(** ** The step loop: order, single invocation, halting *)

Section HandlerRun.
Variables (fuel : nat) (runID namespaceName newStorageClassName pvcName : string).

Local Abbreviation the_handler :=
  (handler fuel runID namespaceName newStorageClassName pvcName).

(** C2: in every run, the action of step [j+1] is entered only after the
    action of step [j] was entered and returned [true]; every action is
    entered at most once; and once an action has returned [false] or
    thrown, no action is entered any more. *)
Theorem C2_steps_in_order st :
  (forall j l1 l2,
     events_of the_handler st = (l1 ++ EStepCall (S j) :: l2)%list ->
     exists a b c, l1 = (a ++ EStepCall j :: b ++ EStepReturn j true :: c)%list) /\
  (forall j, (count (is_step_call j) (events_of the_handler st) <= 1)%nat) /\
  (forall l1 e l2,
     events_of the_handler st = (l1 ++ e :: l2)%list ->
     is_step_failure e = true ->
     forall k, ~ In (EStepCall k) l2).
Proof.
  destruct (handler_events fuel runID namespaceName newStorageClassName pvcName st)
    as (s & Hmon & _).
  split; [|split].
  - intros j l1 l2 Hsplit. rewrite Hsplit, monitor_app in Hmon.
    destruct (monitor (Awaiting 0) l1) as [s1|] eqn:Hl1; [|discriminate].
    cbn [mbind option_bind monitor] in Hmon.
    destruct (phase_step s1 (EStepCall (S j))) as [s2|] eqn:Hstep; [|discriminate].
    apply phase_step_call in Hstep as [-> _].
    apply monitor_history in Hl1 as [_ Hbefore]. exact Hbefore.
  - intros j. apply (monitor_calls_once j _ _ _ Hmon).
  - intros l1 e l2 Hsplit Hfail k Hin. rewrite Hsplit, monitor_app in Hmon.
    destruct (monitor (Awaiting 0) l1) as [s1|]; [|discriminate].
    cbn [mbind option_bind monitor] in Hmon.
    destruct (phase_step s1 e) as [s2|] eqn:Hstep; [|discriminate].
    apply (phase_step_failure _ _ _ Hstep) in Hfail as ->.
    apply monitor_halted in Hmon as [_ Hquiet].
    unfold quiet in Hquiet. rewrite List.Forall_forall in Hquiet.
    specialize (Hquiet _ Hin). discriminate.
Qed.

(** C4: the action of a step is entered only right after the prompt was
    answered with exactly [Y]; any other answer is the last event of the
    run, which returns at once: at step [i] the loop returns before the
    action of step [i], having made no API call. *)
Theorem C4_confirmation_gate st :
  (forall j l1 l2,
     events_of the_handler st = (l1 ++ EStepCall j :: l2)%list ->
     exists l0, l1 = (l0 ++ [EInput confirm_prompt "Y"])%list) /\
  (forall l1 p a l2,
     events_of the_handler st = (l1 ++ EInput p a :: l2)%list ->
     a <> "Y" ->
     l2 = [] /\ result_of the_handler st = Ret None) /\
  (forall i step rest st' a others,
     answers st' = a :: others ->
     a <> "Y" ->
     run_steps i (step :: rest) st' =
     (Ret (Some None),
      log [EOutput (MsgReady (S i) (description step)); EInput confirm_prompt a]
        (answered st'))).
Proof.
  destruct (handler_events fuel runID namespaceName newStorageClassName pvcName st)
    as (s & Hmon & Hres).
  split; [|split].
  - intros j l1 l2 Hsplit. rewrite Hsplit, monitor_app in Hmon.
    destruct (monitor (Awaiting 0) l1) as [s1|] eqn:Hl1; [|discriminate].
    cbn [mbind option_bind monitor] in Hmon.
    destruct (phase_step s1 (EStepCall j)) as [s2|] eqn:Hstep; [|discriminate].
    apply phase_step_call in Hstep as [-> _].
    apply monitor_history in Hl1 as [Hbefore _]. exact Hbefore.
  - intros l1 p a l2 Hsplit Hno. rewrite Hsplit, monitor_app in Hmon.
    destruct (monitor (Awaiting 0) l1) as [s1|]; [|discriminate].
    cbn [mbind option_bind monitor] in Hmon.
    destruct (phase_step s1 (EInput p a)) as [s2|] eqn:Hstep; [|discriminate].
    apply (phase_step_declined _ _ _ _ Hstep) in Hno as ->.
    destruct l2 as [|e l2]; [|discriminate].
    injection Hmon as <-. split; [reflexivity|exact Hres].
  - intros i step rest st' a others Hans Hno.
    rewrite run_steps_turn, Hans.
    apply String.eqb_neq in Hno. by rewrite Hno.
Qed.
End HandlerRun.

Lemma C2_steps_in_order_witness :
  (exists a b c,
     firstn 25 (events_of (handler 3 "run-1" "apps" "fast" "data") declining_script) =
     (a ++ EStepCall 0 :: b ++ EStepReturn 0 true :: c)%list) /\
  (count (is_step_call 1)
     (events_of (handler 3 "run-1" "apps" "fast" "data") declining_script) <= 1)%nat.
Proof.
  destruct (C2_steps_in_order 3 "run-1" "apps" "fast" "data" declining_script)
    as (Horder & Honce & _).
  split; [|apply Honce].
  apply (Horder 0%nat _
           (skipn 26 (events_of (handler 3 "run-1" "apps" "fast" "data") declining_script))).
  vm_compute. reflexivity.
Defined.

Lemma C4_confirmation_gate_witness :
  result_of (handler 3 "run-1" "apps" "fast" "data") declining_script = Ret None.
Proof.
  destruct (C4_confirmation_gate 3 "run-1" "apps" "fast" "data" declining_script)
    as (_ & Hdeclined & _).
  apply (Hdeclined
           (firstn 42 (events_of (handler 3 "run-1" "apps" "fast" "data") declining_script))
           confirm_prompt "y" []).
  - vm_compute. reflexivity.
  - discriminate.
Defined.

(** ** Discovery without a bound volume *)

Lemma loose_eq_true a b : loose_eq a b = true <-> a = b.
Proof.
  destruct a as [x|], b as [y|]; simpl; try (split; congruence).
  rewrite String.eqb_eq. split; congruence.
Qed.

(** [pv_matches] is the test of [getPVForPVC]: phase [Bound] and a claim
    reference with the claim's uid. *)
Lemma pv_matches_true pvc pv :
  pv_matches pvc pv = true <->
  pv_status pv ≫= phase = Some "Bound" /\
  exists ref, pv_spec pv ≫= claimRef = Some ref /\ ref_uid ref = pvc_uid pvc.
Proof.
  unfold pv_matches.
  destruct (loose_eq (pv_status pv ≫= phase) (Some "Bound")) eqn:Hphase.
  - apply loose_eq_true in Hphase.
    destruct (pv_spec pv ≫= claimRef) as [ref|].
    + rewrite loose_eq_true. split.
      * intros Huid. eauto.
      * intros (_ & ref' & [= <-] & Huid). done.
    + split; [done|]. intros (_ & ref' & Href & _). done.
  - split; [done|]. intros (Hbound & _).
    apply loose_eq_true in Hbound. congruence.
Qed.

Lemma first_matching_pv_none pvc items :
  (forall pv, In pv items -> pv_matches pvc pv = false) ->
  first_matching_pv pvc items = None.
Proof.
  induction items as [|pv items IH]; intros Hnone; simpl; [done|].
  rewrite (Hnone pv) by (by left).
  apply IH. intros pv' Hin. apply Hnone. by right.
Qed.

(** C8 (as the code has it): when no volume in the list is [Bound] with a
    claim reference carrying the claim's uid, the handler does its three
    reads, writes the gathering banner and returns [undefined]: no plan is
    printed, no prompt is shown, no step action runs, no write reaches the
    cluster, and no failure message is written. *)
Theorem C8_no_bound_volume fuel runID namespaceName newStorageClassName pvcName
    st pvc items mounting reads volumes lists :
  pvc_reads st = inr pvc :: reads ->
  pv_lists st = inr items :: volumes ->
  pod_lists st = inr mounting :: lists ->
  (forall pv, In pv items ->
     ~ (pv_status pv ≫= phase = Some "Bound" /\
        exists ref, pv_spec pv ≫= claimRef = Some ref /\ ref_uid ref = pvc_uid pvc)) ->
  handler fuel runID namespaceName newStorageClassName pvcName (fresh st) =
  (Ret None,
   {| pod_lists := lists; pv_lists := volumes; pvc_reads := reads;
      job_reads := job_reads st; writes := writes st; answers := answers st;
      pods := pods_mounting pvcName mounting;
      trace :=
        [EOutput MsgGathering;
         EApi (readNamespacedPersistentVolumeClaim (Some pvcName) (Some namespaceName))
           (RClaim pvc);
         EApi listPersistentVolume (RVolumes items);
         EApi (listNamespacedPod namespaceName) (RPods mounting);
         EOutput MsgDone; EOutput MsgNewline] |}).
Proof.
  intros Hreads Hvolumes Hlists Hnone.
  assert (first_matching_pv pvc items = None) as Hpv.
  { apply first_matching_pv_none. intros pv Hin.
    destruct (pv_matches pvc pv) eqn:Hm; [|done].
    apply pv_matches_true in Hm. by destruct (Hnone pv Hin). }
  destruct st; simpl in *; subst.
  unfold handler, fresh. run_handler. rewrite Hpv. reflexivity.
Qed.

Lemma C8_no_bound_volume_witness :
  result_of (handler 3 "run-1" "apps" "fast" "data") unbound_script = Ret None /\
  outputs (events_of (handler 3 "run-1" "apps" "fast" "data") unbound_script) =
  [MsgGathering; MsgDone; MsgNewline].
Proof.
  assert (forall pv, In pv [other_volume] ->
            ~ (pv_status pv ≫= phase = Some "Bound" /\
               exists ref, pv_spec pv ≫= claimRef = Some ref /\
                           ref_uid ref = pvc_uid sample_claim)) as Hnone.
  { intros pv [<-|[]] (_ & ref & [= <-] & Huid). discriminate. }
  unfold result_of, events_of.
  rewrite (C8_no_bound_volume 3 "run-1" "apps" "fast" "data" unbound_script
             sample_claim [other_volume] [] [] [] [] eq_refl eq_refl eq_refl Hnone).
  split; reflexivity.
Defined.

(** C8 as stated fails: with no bound volume the run writes nothing after
    the gathering banner and returns like a run the operator stopped; no
    failure is reported. *)
Lemma C8_counterexample :
  ~ (exists e,
       In e (events_of (handler 3 "run-1" "apps" "fast" "data") unbound_script) /\
       is_failure_report e = true) /\
  outputs (events_of (handler 3 "run-1" "apps" "fast" "data") unbound_script) =
  [MsgGathering; MsgDone; MsgNewline] /\
  result_of (handler 3 "run-1" "apps" "fast" "data") unbound_script = Ret None.
Proof.
  split; [|split; vm_compute; reflexivity].
  intros (e & Hin & Hfail). vm_compute in Hin.
  repeat (destruct Hin as [<-|Hin]; [discriminate|]). exact Hin.
Qed.

(** * More of the handler *)

(** ** [getPodsMountingPVC]: which pods are listed, and how often *)

Lemma volume_mounts_claim_true pvcName volume :
  volume_mounts_claim pvcName volume = true <->
  exists src, persistentVolumeClaim volume = Some src /\ claimName src = Some pvcName.
Proof.
  unfold volume_mounts_claim. destruct (persistentVolumeClaim volume) as [src|].
  - rewrite loose_eq_true. split; [eauto|]. by intros (src' & [= <-] & Hname).
  - split; [done|]. by intros (src & Hsrc & _).
Qed.

(** X1: A pod is in the result exactly when it is in the list and one of its
    volumes is a claim source naming the claim; pods without a spec or
    without volumes are passed over. *)
Theorem pods_mounting_member pvcName items pod :
  In pod (pods_mounting pvcName items) <->
  In pod items /\
  exists volumes_of_pod volume src,
    pod_spec pod ≫= volumes = Some volumes_of_pod /\
    In volume volumes_of_pod /\
    persistentVolumeClaim volume = Some src /\
    claimName src = Some pvcName.
Proof.
  unfold pods_mounting. rewrite in_flat_map. split.
  - intros (pod' & Hin & Hpod). apply in_flat_map in Hpod as (volume & Hvol & Hhit).
    destruct (volume_mounts_claim pvcName volume) eqn:Hm; [|destruct Hhit].
    destruct Hhit as [->|[]]. split; [done|].
    apply volume_mounts_claim_true in Hm as (src & Hsrc & Hname).
    destruct (pod_spec pod ≫= volumes) as [vs|]; [|destruct Hvol].
    exists vs, volume, src. done.
  - intros (Hin & vs & volume & src & Hvs & Hvol & Hsrc & Hname).
    exists pod. split; [done|]. apply in_flat_map. exists volume.
    rewrite Hvs. split; [done|].
    assert (volume_mounts_claim pvcName volume = true) as ->
      by (apply volume_mounts_claim_true; eauto).
    by left.
Qed.

Lemma pods_mounting_one pvcName pod :
  length (flat_map (fun volume => if volume_mounts_claim pvcName volume then [pod] else [])
            (default [] (pod_spec pod ≫= volumes))) =
  matching_volumes pvcName pod.
Proof.
  unfold matching_volumes.
  induction (default [] (pod_spec pod ≫= volumes)) as [|volume vs IH]; simpl; [done|].
  destruct (volume_mounts_claim pvcName volume); simpl; by rewrite IH.
Qed.

(** X2: A pod is listed once for every volume of it that references the claim:
    the result is as long as the matching volumes are many, so a pod that
    mounts the claim twice appears twice. *)
Theorem pods_mounting_length pvcName items :
  length (pods_mounting pvcName items) = sum_list_with (matching_volumes pvcName) items /\
  (forall pod, pod_spec pod ≫= volumes = None -> pods_mounting pvcName [pod] = []) /\
  (forall pod, pods_mounting pvcName [pod] = replicate (matching_volumes pvcName pod) pod).
Proof.
  split; [|split].
  - unfold pods_mounting. induction items as [|pod items IH]; simpl; [done|].
    by rewrite length_app, pods_mounting_one, IH.
  - intros pod Hnone. unfold pods_mounting. simpl. by rewrite Hnone.
  - intros pod. unfold pods_mounting, matching_volumes. simpl. rewrite app_nil_r.
    induction (default [] (pod_spec pod ≫= volumes)) as [|volume vs IH]; simpl; [done|].
    destruct (volume_mounts_claim pvcName volume); simpl; by rewrite IH.
Qed.

(** ** [getPVForPVC]: the first bound volume with the claim's uid *)

(** X3: When a volume is returned, it is in the list, it is [Bound] with a
    claim reference carrying the claim's uid, and no volume before it in
    the list is. *)
Theorem first_matching_pv_some pvc items pv :
  first_matching_pv pvc items = Some pv ->
  exists before after,
    items = (before ++ pv :: after)%list /\
    pv_status pv ≫= phase = Some "Bound" /\
    (exists ref, pv_spec pv ≫= claimRef = Some ref /\ ref_uid ref = pvc_uid pvc) /\
    Forall (fun other => pv_matches pvc other = false) before.
Proof.
  induction items as [|head items IH]; simpl; [discriminate|].
  destruct (pv_matches pvc head) eqn:Hm.
  - intros [= <-]. exists [], items. apply pv_matches_true in Hm as [Hb Hr].
    repeat split; auto.
  - intros Hrest. destruct (IH Hrest) as (before & after & -> & Hb & Hr & Hnone).
    exists (head :: before), after. repeat split; auto.
Qed.

Lemma first_matching_pv_some_witness :
  exists before after,
    [other_volume; sample_volume] = (before ++ sample_volume :: after)%list /\
    pv_status sample_volume ≫= phase = Some "Bound" /\
    (exists ref, pv_spec sample_volume ≫= claimRef = Some ref /\
                 ref_uid ref = pvc_uid sample_claim) /\
    Forall (fun other => pv_matches sample_claim other = false) before.
Proof.
  assert (first_matching_pv sample_claim [other_volume; sample_volume] = Some sample_volume)
    as Hfound by reflexivity.
  exact (first_matching_pv_some sample_claim [other_volume; sample_volume] sample_volume Hfound).
Defined.

(** X4: No volume is returned exactly when no volume of the list is [Bound]
    with a claim reference carrying the claim's uid; in particular for an
    empty list. *)
Theorem first_matching_pv_none_iff pvc items :
  first_matching_pv pvc items = None <->
  forall pv, In pv items ->
    ~ (pv_status pv ≫= phase = Some "Bound" /\
       exists ref, pv_spec pv ≫= claimRef = Some ref /\ ref_uid ref = pvc_uid pvc).
Proof.
  split.
  - induction items as [|head items IH]; simpl; [intros _ pv []|].
    destruct (pv_matches pvc head) eqn:Hm; [discriminate|].
    intros Hrest pv [<-|Hin].
    + rewrite <- pv_matches_true. congruence.
    + by apply IH.
  - intros Hnone. apply first_matching_pv_none. intros pv Hin.
    destruct (pv_matches pvc pv) eqn:Hm; [|done].
    apply pv_matches_true in Hm. by destruct (Hnone pv Hin).
Qed.

(** X5: The uid test is [==] on two possibly undefined values: a [Bound] volume
    whose claim reference has no uid is taken for the volume of a claim
    that has no uid either, whatever names the reference carries. *)
Theorem first_matching_pv_undefined_uid pvc pv ref rest :
  pvc_uid pvc = None ->
  pv_status pv ≫= phase = Some "Bound" ->
  pv_spec pv ≫= claimRef = Some ref ->
  ref_uid ref = None ->
  first_matching_pv pvc (pv :: rest) = Some pv.
Proof.
  intros Hclaim Hbound Href Huid. simpl.
  assert (pv_matches pvc pv = true) as ->; [|done].
  apply pv_matches_true. split; [done|]. exists ref. split; congruence.
Qed.

Lemma first_matching_pv_undefined_uid_witness :
  let anonymous :=
    {| pvc_apiVersion := None; pvc_kind := None; pvc_metadata := None;
       pvc_spec := None; pvc_status := None |} in
  let stray :=
    {| pv_metadata := None;
       pv_spec := Some
         {| claimRef := Some {| ref_name := Some "logs"; ref_namespace := Some "other";
                                ref_uid := None |};
            persistentVolumeReclaimPolicy := None |};
       pv_status := Some {| phase := Some "Bound" |} |} in
  first_matching_pv anonymous [stray; sample_volume] = Some stray.
Proof.
  intros anonymous stray.
  exact (first_matching_pv_undefined_uid anonymous stray _ [sample_volume]
           eq_refl eq_refl eq_refl eq_refl).
Defined.

Lemma pods_mounting_length_witness :
  pods_mounting "data"
    [ {| pod_metadata := None;
         pod_spec := Some {| restartPolicy := None; containers := []; volumes := None |} |} ]
  = [].
Proof.
  destruct (pods_mounting_length "data" []) as (_ & Hnone & _).
  apply Hnone. reflexivity.
Defined.

Lemma first_matching_pv_none_iff_witness :
  first_matching_pv sample_claim [other_volume] = None.
Proof.
  apply (first_matching_pv_none_iff sample_claim [other_volume]).
  intros pv [<-|[]] (_ & ref & [= <-] & Huid). discriminate.
Defined.

(** ** Names of the temporary resources *)

Lemma length_append (s t : string) :
  String.length (s ++ t) = (String.length s + String.length t)%nat.
Proof. induction s as [|c s IH]; simpl; [done|]. by rewrite IH. Qed.

Lemma append_cancel_l (p s t : string) : p ++ s = p ++ t -> s = t.
Proof. induction p as [|c p IH]; simpl; [done|]. intros [= Heq]. by apply IH. Qed.

Lemma append_cancel_r (suffix : string) : forall s t : string,
  s ++ suffix = t ++ suffix -> s = t.
Proof.
  induction s as [|c s IH]; intros [|d t] Heq; simpl in *.
  - done.
  - apply (f_equal String.length) in Heq.
    rewrite ?length_append in Heq. simpl in Heq. rewrite ?length_append in Heq. lia.
  - apply (f_equal String.length) in Heq.
    rewrite ?length_append in Heq. simpl in Heq. rewrite ?length_append in Heq. lia.
  - injection Heq as -> Heq. f_equal. by apply IH.
Qed.

(** X6: Two runs with different run tokens never name their temporary claim
    or their copy job alike; and within a run, the volume [old] of the job
    and the delete of step 6 name the very claim step 4 created. *)
Theorem temporary_names_distinct runA runB :
  (temp_claim_name runA = temp_claim_name runB -> runA = runB) /\
  (copy_job_name runA = copy_job_name runB -> runA = runB) /\
  (forall pvc pv,
     pvc_name (temp_claim runA pvc pv) = Some (temp_claim_name runA) /\
     (job_spec (copy_job runA pvc) ≫= fun spec =>
      template_spec (template spec) ≫= volumes) =
     Some [ {| vol_name := "old";
               persistentVolumeClaim := Some {| claimName := Some (temp_claim_name runA) |} |};
            {| vol_name := "new";
               persistentVolumeClaim := Some {| claimName := pvc_name pvc |} |} ] /\
     forall st w rest, writes st = w :: rest ->
       exists resp,
         trace (snd (step6_run runA pvc st)) =
         (trace st ++
          [EApi (deleteNamespacedPersistentVolumeClaim (Some (temp_claim_name runA))
                   (pvc_namespace pvc)) resp])%list).
Proof.
  split; [|split].
  - unfold temp_claim_name. intros Heq.
    apply append_cancel_l in Heq. by apply append_cancel_r in Heq.
  - unfold copy_job_name. intros Heq.
    apply append_cancel_l in Heq. by apply append_cancel_r in Heq.
  - intros pvc pv. split; [reflexivity|]. split; [reflexivity|].
    intros st w rest Hw. unfold step6_run. run_handler. rewrite Hw.
    destruct w; cbn; eauto.
Qed.

Lemma temporary_names_distinct_witness :
  temp_claim_name "run-1" <> temp_claim_name "run-2".
Proof.
  intros Hsame. apply (temporary_names_distinct "run-1" "run-2") in Hsame. discriminate.
Defined.

(** ** More on the annotation filter *)

Lemma startsWith_prefix search : forall s,
  startsWith s search = true <-> exists rest, s = search ++ rest.
Proof.
  induction search as [|c search IH]; intros [|d s]; simpl.
  - split; [intros _; by exists ""|done].
  - split; [intros _; by exists (String d s)|done].
  - split; [done|]. intros (rest & Hrest). discriminate.
  - destruct (Ascii.eqb_spec d c) as [->|Hne].
    + rewrite IH. split.
      * intros (rest & ->). by exists rest.
      * intros (rest & [= ->]). by exists rest.
    + split; [done|]. intros (rest & [= Hd _]). done.
Qed.

(** X7: An entry survives the filter exactly when the source has it and its
    key is not ["pv.kubernetes.io/"] followed by anything (the bare prefix
    included).  The filter only drops entries, a map without reserved keys
    passes unchanged, and filtering twice changes nothing more. *)
Theorem filter_annotations_keys (a : gmap string string) :
  (forall k v,
     filter_annotations a !! k = Some v <->
     a !! k = Some v /\ ~ exists rest, k = "pv.kubernetes.io/" ++ rest) /\
  filter_annotations a ⊆ a /\
  ((forall k, is_Some (a !! k) -> startsWith k "pv.kubernetes.io/" = false) ->
   filter_annotations a = a) /\
  filter_annotations (filter_annotations a) = filter_annotations a.
Proof.
  split; [|split; [|split]].
  - intros k v. rewrite filter_annotations_Some.
    change reserved_prefix with "pv.kubernetes.io/".
    rewrite <- (startsWith_prefix "pv.kubernetes.io/" k).
    destruct (startsWith k "pv.kubernetes.io/"); intuition congruence.
  - apply map_subseteq_spec. intros k v Hk.
    by apply filter_annotations_Some in Hk as [Hk _].
  - intros Hclean. apply map_eq. intros k. rewrite filter_annotations_lookup.
    change reserved_prefix with "pv.kubernetes.io/".
    destruct (a !! k) as [v|] eqn:Hk.
    + by rewrite Hclean.
    + by destruct (startsWith k "pv.kubernetes.io/").
  - apply map_eq. intros k. rewrite !filter_annotations_lookup.
    by destruct (startsWith k reserved_prefix).
Qed.

Lemma filter_annotations_keys_witness :
  filter_annotations {[ "team" := "infra" ]} = ({[ "team" := "infra" ]} : gmap string string).
Proof.
  destruct (filter_annotations_keys ({[ "team" := "infra" ]} : gmap string string))
    as (_ & _ & Hclean & _).
  apply Hclean.
  intros k [v Hk]. apply lookup_singleton_Some in Hk as [<- _]. reflexivity.
Defined.

(** ** The handler around the step loop *)

Lemma print_plan_items plan : forall i st,
  print_plan i plan st = (Ret tt, log (plan_items i plan) st).
Proof.
  induction plan as [|step rest IH]; intros i st; simpl.
  - unfold ret, log. rewrite app_nil_r. by destruct st.
  - unfold bind, output, emit. simpl. rewrite IH. unfold log. simpl.
    by rewrite <- app_assoc.
Qed.

(** Once discovery has found a volume, the handler is the step loop and
    what it does with the loop's result. *)
Lemma handler_found fuel runID namespaceName newStorageClassName pvcName
    st pvc items listed pv reads volumes lists :
  pvc_reads st = inr pvc :: reads ->
  pv_lists st = inr items :: volumes ->
  pod_lists st = inr listed :: lists ->
  first_matching_pv pvc items = Some pv ->
  let plan := steps fuel runID namespaceName newStorageClassName pvcName pvc pv in
  handler fuel runID namespaceName newStorageClassName pvcName (fresh st) =
  match run_steps 0 plan
          (log (announcement pvcName pvc pv listed plan)
             (after_discovery namespaceName pvcName pvc items listed st)) with
  | (Ret (Some v), st') => (Ret v, st')
  | (Ret None, st') => (Ret None, log [EOutput MsgNewline; EOutput MsgFinished] st')
  | (Throw e, st') => (Throw e, st')
  | (Blocked, st') => (Blocked, st')
  | (OutOfFuel, st') => (OutOfFuel, st')
  end.
Proof.
  intros Hreads Hvolumes Hlists Hpv plan.
  destruct st. cbn [pvc_reads pv_lists pod_lists] in Hreads, Hvolumes, Hlists. subst.
  unfold handler, fresh, after_discovery, announcement, log.
  cbv [bind ret emit output set_pods get_pods settle
       api_listNamespacedPod api_listPersistentVolume
       api_readNamespacedPersistentVolumeClaim getPodsMountingPVC getPVForPVC].
  cbn -[run_steps steps print_plan plan_items]. rewrite Hpv.
  cbn -[run_steps steps print_plan plan_items].
  rewrite print_plan_items. unfold log. cbn -[run_steps steps plan_items].
  fold plan. rewrite <- ?app_assoc. cbn -[run_steps steps plan_items].
  destruct (run_steps 0 plan _) as [[[v|]|e| |] st']; try reflexivity.
  cbn. rewrite <- app_assoc. reflexivity.
Qed.

(** It returns [false] only right after a step action returned [false]
    or threw, and the failure message is the last thing written. *)
Lemma run_steps_false plan : forall i st v st',
  run_steps i plan st = (Ret (Some (Some v)), st') ->
  v = false /\
  exists pre e n detail,
    trace st' = (pre ++ [e; EOutput (MsgStepFailed n detail)])%list /\
    is_step_failure e = true.
Proof.
  induction plan as [|step rest IH]; intros i st v st' Hrun; [discriminate|].
  rewrite run_steps_turn in Hrun.
  destruct (answers st) as [|answer others]; [discriminate|].
  destruct (String.eqb answer "Y"); [|discriminate].
  destruct (run step _) as [[[|]|e'| |] st1]; try discriminate.
  - by apply IH in Hrun.
  - injection Hrun as <- <-. split; [done|].
    exists (trace st1), (EStepReturn i false), (S i), None. done.
  - injection Hrun as <- <-. split; [done|].
    exists (trace st1), (EStepThrow i e'), (S i), (error_detail e'). done.
Qed.

(** It returns [undefined] out of the handler only right after a prompt
    answered with something else than [Y]. *)
Lemma run_steps_declined plan : forall i st st',
  run_steps i plan st = (Ret (Some None), st') ->
  exists pre answer,
    trace st' = (pre ++ [EInput confirm_prompt answer])%list /\ answer <> "Y".
Proof.
  induction plan as [|step rest IH]; intros i st st' Hrun; [discriminate|].
  rewrite run_steps_turn in Hrun.
  destruct (answers st) as [|answer others]; [discriminate|].
  destruct (String.eqb_spec answer "Y") as [->|Hno].
  - destruct (run step _) as [[[|]|e'| |] st1]; try discriminate. by apply IH in Hrun.
  - injection Hrun as <-. eexists (trace st ++ [_])%list, answer.
    split; [|done]. unfold log, answered. simpl. by rewrite <- app_assoc.
Qed.

(** It runs to its end only when every action of the plan has returned
    [true]. *)
Lemma run_steps_completed plan :
  Forall (fun step => silent (run step)) plan ->
  forall i st st',
    run_steps i plan st = (Ret None, st') ->
    exists evs,
      trace st' = (trace st ++ evs)%list /\
      forall k, (k < length plan)%nat -> In (EStepReturn (i + k) true) evs.
Proof.
  induction 1 as [|step rest Hstep _ IH]; intros i st st' Hrun.
  { injection Hrun as <-. exists []. rewrite app_nil_r. split; [done|].
    simpl. intros k Hk. lia. }
  rewrite run_steps_turn in Hrun.
  destruct (answers st) as [|answer others]; [discriminate|].
  destruct (String.eqb answer "Y"); [|discriminate].
  match type of Hrun with context [run step (log ?evs0 ?s)] =>
    set (before := evs0) in *; set (st1 := log before s) in *
  end.
  destruct (Hstep st1) as (q & Hq & _).
  destruct (run step st1) as [[[|]|e'| |] st2]; try discriminate.
  apply IH in Hrun as (evs & Hevs & Hall). simpl in Hq, Hevs.
  exists (before ++ q ++ [EStepReturn i true; EOutput (MsgStepSuccessful (S i))] ++ evs)%list.
  split.
  - rewrite Hevs, Hq. simpl. rewrite <- !app_assoc. reflexivity.
  - intros [|k] Hk; rewrite !in_app_iff.
    + rewrite Nat.add_0_r. right. right. left. by left.
    + replace (i + S k)%nat with (S i + k)%nat by lia.
      right. right. right. apply Hall. simpl in Hk. lia.
Qed.

(** Running the handler up to the end of discovery. *)
Ltac run_discovery :=
  unfold result_of, events_of, fresh, handler;
  cbv [bind ret throw emit output set_pods get_pods settle
       api_listNamespacedPod api_listPersistentVolume
       api_readNamespacedPersistentVolumeClaim getPodsMountingPVC getPVForPVC];
  cbn -[run_steps steps print_plan].

Section HandlerOutcomes.
Variables (fuel : nat) (runID namespaceName newStorageClassName pvcName : string).

Local Abbreviation the_handler :=
  (handler fuel runID namespaceName newStorageClassName pvcName).

(** X8: When one of the three discovery reads is rejected, the handler
    throws that error at once: no later read is made, nothing is written
    after ['Gathering info...'], no prompt is shown and no call changes the
    cluster.  An error thrown by a step action, in contrast, is caught by
    the step loop, which reports the step as failed and returns [false]. *)
Theorem discovery_errors_propagate st e :
  (forall rest, pvc_reads st = inl e :: rest ->
     the_handler (fresh st) =
     (Throw e,
      {| pod_lists := pod_lists st; pv_lists := pv_lists st; pvc_reads := rest;
         job_reads := job_reads st; writes := writes st; answers := answers st;
         pods := pods st;
         trace :=
           [EOutput MsgGathering;
            EApi (readNamespacedPersistentVolumeClaim (Some pvcName) (Some namespaceName))
              (RError e)] |})) /\
  (forall pvc reads rest,
     pvc_reads st = inr pvc :: reads -> pv_lists st = inl e :: rest ->
     the_handler (fresh st) =
     (Throw e,
      {| pod_lists := pod_lists st; pv_lists := rest; pvc_reads := reads;
         job_reads := job_reads st; writes := writes st; answers := answers st;
         pods := pods st;
         trace :=
           [EOutput MsgGathering;
            EApi (readNamespacedPersistentVolumeClaim (Some pvcName) (Some namespaceName))
              (RClaim pvc);
            EApi listPersistentVolume (RError e)] |})) /\
  (forall pvc reads items volumes rest,
     pvc_reads st = inr pvc :: reads -> pv_lists st = inr items :: volumes ->
     pod_lists st = inl e :: rest ->
     the_handler (fresh st) =
     (Throw e,
      {| pod_lists := rest; pv_lists := volumes; pvc_reads := reads;
         job_reads := job_reads st; writes := writes st; answers := answers st;
         pods := pods st;
         trace :=
           [EOutput MsgGathering;
            EApi (readNamespacedPersistentVolumeClaim (Some pvcName) (Some namespaceName))
              (RClaim pvc);
            EApi listPersistentVolume (RVolumes items);
            EApi (listNamespacedPod namespaceName) (RError e)] |})) /\
  (forall i step rest since others st1,
     answers since = "Y" :: others ->
     run step
       (log [EOutput (MsgReady (S i) (description step)); EInput confirm_prompt "Y";
             EStepCall i] (answered since)) = (Throw e, st1) ->
     run_steps i (step :: rest) since =
     (Ret (Some (Some false)),
      log [EStepThrow i e; EOutput (MsgStepFailed (S i) (error_detail e))] st1)).
Proof.
  split; [|split; [|split]].
  - intros rest Hreads. destruct st. cbn [pvc_reads] in Hreads. subst.
    run_discovery. reflexivity.
  - intros pvc reads rest Hreads Hvolumes. destruct st.
    cbn [pvc_reads pv_lists] in Hreads, Hvolumes. subst.
    run_discovery. reflexivity.
  - intros pvc reads items volumes rest Hreads Hvolumes Hlists. destruct st.
    cbn [pvc_reads pv_lists pod_lists] in Hreads, Hvolumes, Hlists. subst.
    run_discovery. reflexivity.
  - intros i step rest since others st1 Hans Hthrow.
    rewrite run_steps_turn, Hans. cbn [String.eqb Ascii.eqb Bool.eqb]. by rewrite Hthrow.
Qed.

(** X9: No call that changes the cluster is made unless the first prompt is
    answered [Y]: with no answer, or any other first answer, the run makes
    no patch, delete or create call. *)
Theorem no_write_before_approval st :
  hd_error (answers st) <> Some "Y" ->
  writes (snd (the_handler (fresh st))) = writes st /\
  count is_write_call (events_of the_handler st) = 0%nat.
Proof.
  intros Hfirst.
  destruct st as [lists volumes reads jobs ws ans ps tr].
  destruct reads as [|[e1|pvc] reads];
    [| |destruct volumes as [|[e2|items] volumes];
        [| |destruct lists as [|[e3|listed] lists]]].
  1-6: run_discovery; split; reflexivity.
  destruct (first_matching_pv pvc items) as [pv|] eqn:Hpv.
  - unfold events_of.
    rewrite (handler_found fuel runID namespaceName newStorageClassName pvcName
               (Build_State (inr listed :: lists) (inr items :: volumes) (inr pvc :: reads)
                  jobs ws ans ps tr)
               pvc items listed pv reads volumes lists eq_refl eq_refl eq_refl Hpv).
    unfold steps. rewrite run_steps_turn. cbn [answers log after_discovery].
    destruct ans as [|answer others]; [split; reflexivity|].
    destruct (String.eqb_spec answer "Y") as [->|Hno]; [by destruct Hfirst|].
    split; reflexivity.
  - run_discovery. rewrite Hpv. split; reflexivity.
Qed.

(** X10: The handler returns [false] exactly when a step action returned
    [false] or threw. *)
Theorem handler_false_iff_step_failed st :
  result_of the_handler st = Ret (Some false) <->
  exists e, In e (events_of the_handler st) /\ is_step_failure e = true.
Proof.
  split.
  - destruct st as [lists volumes reads jobs ws ans ps tr].
    destruct reads as [|[e1|pvc] reads];
      [| |destruct volumes as [|[e2|items] volumes];
          [| |destruct lists as [|[e3|listed] lists]]].
    1-6: run_discovery; discriminate.
    destruct (first_matching_pv pvc items) as [pv|] eqn:Hpv.
    + unfold result_of, events_of.
      rewrite (handler_found fuel runID namespaceName newStorageClassName pvcName
                 (Build_State (inr listed :: lists) (inr items :: volumes) (inr pvc :: reads)
                    jobs ws ans ps tr)
                 pvc items listed pv reads volumes lists eq_refl eq_refl eq_refl Hpv).
      match goal with |- context [run_steps 0 ?plan ?s] =>
        destruct (run_steps 0 plan s) as [[[[v|]|]|e'| |] st'] eqn:Hrun
      end; try discriminate.
      intros _. apply run_steps_false in Hrun as (_ & pre & e & n & detail & Htr & Hfail).
      exists e. split; [|done]. cbn [snd]. rewrite Htr, in_app_iff. right. by left.
    + run_discovery. rewrite Hpv. discriminate.
  - intros (e & Hin & Hfail).
    destruct (handler_events fuel runID namespaceName newStorageClassName pvcName st)
      as (s & Hmon & Hres).
    apply in_split in Hin as (l1 & l2 & Hsplit). rewrite Hsplit, monitor_app in Hmon.
    destruct (monitor (Awaiting 0) l1) as [s1|]; [|discriminate].
    cbn [mbind option_bind monitor] in Hmon.
    destruct (phase_step s1 e) as [s2|] eqn:Hstep; [|discriminate].
    apply (phase_step_failure _ _ _ Hstep) in Hfail as ->.
    apply monitor_halted in Hmon as [-> _]. exact Hres.
Qed.

(** X11: When the handler returns [undefined], one of three things happened:
    discovery found no volume and only the banner was written; or the last
    event is a prompt answered with something else than [Y]; or all six
    step actions returned [true] and the run ends with the closing message. *)
Theorem handler_undefined_means st :
  result_of the_handler st = Ret None ->
  outputs (events_of the_handler st) = [MsgGathering; MsgDone; MsgNewline] \/
  (exists pre answer,
     events_of the_handler st = (pre ++ [EInput confirm_prompt answer])%list /\
     answer <> "Y") \/
  ((forall i, (i < 6)%nat -> In (EStepReturn i true) (events_of the_handler st)) /\
   exists pre,
     events_of the_handler st = (pre ++ [EOutput MsgNewline; EOutput MsgFinished])%list).
Proof.
  destruct st as [lists volumes reads jobs ws ans ps tr].
  destruct reads as [|[e1|pvc] reads];
    [| |destruct volumes as [|[e2|items] volumes];
        [| |destruct lists as [|[e3|listed] lists]]].
  1-6: run_discovery; discriminate.
  destruct (first_matching_pv pvc items) as [pv|] eqn:Hpv.
  - unfold result_of, events_of.
    rewrite (handler_found fuel runID namespaceName newStorageClassName pvcName
               (Build_State (inr listed :: lists) (inr items :: volumes) (inr pvc :: reads)
                  jobs ws ans ps tr)
               pvc items listed pv reads volumes lists eq_refl eq_refl eq_refl Hpv).
    match goal with |- context [run_steps 0 ?plan ?s] =>
      destruct (run_steps 0 plan s) as [[[[v|]|]|e'| |] st'] eqn:Hrun
    end; try discriminate; intros _; cbn [snd]; right.
    + left. by apply run_steps_declined in Hrun.
    + right. apply run_steps_completed in Hrun as (evs & Htr & Hall);
        [|apply steps_silent].
      split.
      * intros i Hi. unfold log. cbn [trace]. rewrite Htr, !in_app_iff.
        left. right. apply (Hall i). exact Hi.
      * by exists (trace st').
  - left. run_discovery. rewrite Hpv. reflexivity.
Qed.
End HandlerOutcomes.

Lemma discovery_errors_propagate_witness :
  result_of (handler 3 "run-1" "apps" "fast" "data")
    {| pod_lists := []; pv_lists := []; pvc_reads := [inl (HttpError 403 "forbidden")];
       job_reads := []; writes := [None]; answers := ["Y"]; pods := []; trace := [] |}
  = Throw (HttpError 403 "forbidden").
Proof.
  destruct (discovery_errors_propagate 3 "run-1" "apps" "fast" "data"
              {| pod_lists := []; pv_lists := []; pvc_reads := [inl (HttpError 403 "forbidden")];
                 job_reads := []; writes := [None]; answers := ["Y"]; pods := [];
                 trace := [] |} (HttpError 403 "forbidden")) as (Hclaim & _).
  unfold result_of. by rewrite (Hclaim [] eq_refl).
Defined.

Lemma no_write_before_approval_witness :
  writes (snd (handler 3 "run-1" "apps" "fast" "data"
                 (fresh {| pod_lists := [inr []]; pv_lists := [inr [sample_volume]];
                           pvc_reads := [inr sample_claim]; job_reads := [];
                           writes := [None]; answers := ["N"]; pods := []; trace := [] |})))
  = [None].
Proof.
  apply (no_write_before_approval 3 "run-1" "apps" "fast" "data"
           {| pod_lists := [inr []]; pv_lists := [inr [sample_volume]];
              pvc_reads := [inr sample_claim]; job_reads := [];
              writes := [None]; answers := ["N"]; pods := []; trace := [] |}).
  discriminate.
Defined.

Lemma handler_false_iff_step_failed_witness :
  exists e,
    In e (events_of (handler 3 "run-1" "apps" "fast" "data") failing_job_script) /\
    is_step_failure e = true.
Proof.
  apply (handler_false_iff_step_failed 3 "run-1" "apps" "fast" "data" failing_job_script).
  vm_compute. reflexivity.
Defined.

Lemma handler_undefined_means_witness :
  outputs (events_of (handler 3 "run-1" "apps" "fast" "data") unbound_script) =
    [MsgGathering; MsgDone; MsgNewline] \/
  (exists pre answer,
     events_of (handler 3 "run-1" "apps" "fast" "data") unbound_script =
     (pre ++ [EInput confirm_prompt answer])%list /\ answer <> "Y") \/
  ((forall i, (i < 6)%nat ->
      In (EStepReturn i true) (events_of (handler 3 "run-1" "apps" "fast" "data") unbound_script)) /\
   exists pre,
     events_of (handler 3 "run-1" "apps" "fast" "data") unbound_script =
     (pre ++ [EOutput MsgNewline; EOutput MsgFinished])%list).
Proof.
  apply (handler_undefined_means 3 "run-1" "apps" "fast" "data" unbound_script).
  vm_compute. reflexivity.
Defined.

(** ** The two waits, for any number of turns *)

(** X12: After any number of snapshots judged [Pending], the first snapshot
    judged otherwise ends the job wait: with [true] if it is judged
    [Succeeded], with [false] if [Failed].  The loop has then read once per
    snapshot, and written its progress line and slept once per pending
    snapshot. *)
Theorem job_wait_after_pending fuel runID pvc (waiting : list V1Job) (final : V1Job) :
  Forall (fun job => job_poll job = Pending) waiting ->
  job_poll final <> Pending ->
  forall st rest,
    job_reads st = (map inr waiting ++ inr final :: rest)%list ->
    exists st' evs,
      job_wait (S (length waiting) + fuel) runID pvc st =
      (Ret (match job_poll final with Succeeded => true | _ => false end), st') /\
      trace st' = (trace st ++ evs)%list /\
      count is_job_read evs = S (length waiting) /\
      count is_job_progress evs = length waiting /\
      count is_sleep evs = length waiting /\
      job_reads st' = rest.
Proof.
  intros Hwaiting Hfinal.
  induction Hwaiting as [|job waiting Hjob _ IH]; intros st rest Hreads; simpl in Hreads.
  - rewrite (job_wait_turn _ _ _ _ _ _ Hreads).
    exists (after_job_read runID pvc final st). eexists. split; [|split; [reflexivity|]].
    + by destruct (job_poll final).
    + repeat split. simpl. by rewrite Hreads.
  - cbn [length Nat.add]. rewrite (job_wait_turn _ _ _ _ _ _ Hreads), Hjob.
    destruct (IH (after_job_tick runID pvc job st) rest) as (st' & evs & Hrun & Htr & Hr & Hp & Hs & Hrest).
    { simpl. by rewrite Hreads. }
    exists st'. eexists. split; [exact Hrun|]. split.
    + rewrite Htr. simpl. rewrite <- app_assoc. reflexivity.
    + rewrite !count_app, Hr, Hp, Hs. repeat split; done.
Qed.

Lemma job_wait_after_pending_witness :
  exists st' evs,
    job_wait 3 "run-1" sample_claim
      {| pod_lists := []; pv_lists := []; pvc_reads := [];
         job_reads := [inr (job_with None None); inr job_without_status;
                       inr (job_with (Some 0) (Some 1))];
         writes := []; answers := []; pods := []; trace := [] |} = (Ret true, st') /\
    trace st' = evs /\
    count is_job_read evs = 3%nat /\
    count is_job_progress evs = 2%nat /\
    count is_sleep evs = 2%nat /\
    job_reads st' = [].
Proof.
  assert (Forall (fun job => job_poll job = Pending) [job_with None None; job_without_status])
    as Hwaiting by (repeat constructor).
  assert (job_poll (job_with (Some 0) (Some 1)) <> Pending) as Hfinal by discriminate.
  exact (job_wait_after_pending 0 "run-1" sample_claim _ _ Hwaiting Hfinal
           {| pod_lists := []; pv_lists := []; pvc_reads := [];
              job_reads := [inr (job_with None None); inr job_without_status;
                            inr (job_with (Some 0) (Some 1))];
              writes := []; answers := []; pods := []; trace := [] |} [] eq_refl).
Defined.

Section DeletionWaitTurns.
Variables namespaceName pvcName : string.
Variable pvc : V1PersistentVolumeClaim.

Lemma deletion_body_waits st items prest r crest :
  pod_lists st = inr items :: prest ->
  pvc_reads st = r :: crest ->
  keeps_waiting r ->
  exists resp,
    deletion_wait_body namespaceName pvcName pvc st =
    (Ret None, after_deletion_turn namespaceName pvcName pvc items resp [ESleep 1000] st).
Proof.
  intros Hpods Hreads Hr. destruct r as [e|c]; simpl in Hr.
  - exists (RError e). by rewrite (deletion_body_error _ _ _ _ _ _ _ _ Hpods Hreads), Hr.
  - exists (RClaim c). by rewrite (deletion_body_exists _ _ _ _ _ _ _ _ Hpods Hreads).
Qed.

(** X13: However many reads find the claim still there or fail with something
    else than 404, the first 404 ends the deletion wait normally.  The loop
    has then written its progress line once per read and slept once per
    earlier read, and the handler's [pods] holds the pods of the last
    listing that mount the claim. *)
Theorem deletion_wait_after_waiting fuel (seen : list (Err + V1PersistentVolumeClaim)) :
  Forall keeps_waiting seen ->
  forall (listings : list (list V1Pod)) last_listing reason st prest crest,
    length listings = length seen ->
    pod_lists st = (map inr listings ++ inr last_listing :: prest)%list ->
    pvc_reads st = (seen ++ inl (HttpError 404 reason) :: crest)%list ->
    exists st' evs,
      deletion_wait (S (length seen) + fuel) namespaceName pvcName pvc st = (Ret tt, st') /\
      trace st' = (trace st ++ evs)%list /\
      count is_claim_read evs = S (length seen) /\
      count is_deletion_progress evs = S (length seen) /\
      count is_sleep evs = length seen /\
      pvc_reads st' = crest /\
      pods st' = pods_mounting pvcName last_listing.
Proof.
  induction 1 as [|r seen Hr _ IH];
    intros listings last_listing reason st prest crest Hlen Hpods Hreads.
  - destruct listings; [|discriminate]. simpl in Hpods, Hreads.
    unfold deletion_wait. rewrite while_true_turn.
    rewrite (deletion_body_error _ _ _ _ _ _ _ _ Hpods Hreads). cbn [is_not_found].
    rewrite Z.eqb_refl. eexists _, _. split; [reflexivity|].
    split; [reflexivity|]. repeat split. simpl. by rewrite Hreads.
  - destruct listings as [|items listings]; [discriminate|].
    simpl in Hpods, Hreads, Hlen.
    destruct (deletion_body_waits _ _ _ _ _ Hpods Hreads Hr) as (resp & Hbody).
    cbn [length Nat.add]. unfold deletion_wait. rewrite while_true_turn, Hbody.
    fold (deletion_wait (S (length seen) + fuel) namespaceName pvcName pvc).
    destruct (IH listings last_listing reason
                (after_deletion_turn namespaceName pvcName pvc items resp [ESleep 1000] st)
                prest crest)
      as (st' & evs & Hrun & Htr & Hc & Hp & Hs & Hrest & Hvar).
    { lia. }
    { simpl. by rewrite Hpods. }
    { simpl. by rewrite Hreads. }
    exists st'. eexists. split; [exact Hrun|]. split.
    + rewrite Htr. simpl. rewrite <- !app_assoc. reflexivity.
    + rewrite !count_app, Hc, Hp, Hs. destruct resp; repeat split; done.
Qed.
End DeletionWaitTurns.

Lemma deletion_wait_after_waiting_witness :
  exists st' evs,
    deletion_wait 2 "apps" "data" sample_claim flaky_script = (Ret tt, st') /\
    trace st' = (trace flaky_script ++ evs)%list /\
    count is_claim_read evs = 2%nat /\
    count is_deletion_progress evs = 2%nat /\
    count is_sleep evs = 1%nat /\
    pvc_reads st' = [] /\
    pods st' = pods_mounting "data" [].
Proof.
  assert (Forall keeps_waiting [inl (HttpError 500 "internal error")
                                : Err + V1PersistentVolumeClaim]) as Hseen
    by (repeat constructor).
  exact (deletion_wait_after_waiting "apps" "data" sample_claim 0 _ Hseen
           [[]] [] "not found" flaky_script [] [] eq_refl eq_refl eq_refl).
Defined.

(** ** How the step actions fail *)

(** X14: Step 2: when the delete call is rejected the action throws that error
    at once, without listing pods or reading the claim; and inside the
    wait, a rejected pod listing is thrown out of the loop before the
    progress line is written or the claim is read (only errors of the
    claim read are caught). *)
Theorem step2_failures fuel namespaceName pvcName pvc st e :
  (forall rest, writes st = Some e :: rest ->
     step2_run fuel namespaceName pvcName pvc st =
     (Throw e,
      log [EApi (deleteNamespacedPersistentVolumeClaim (pvc_name pvc) (pvc_namespace pvc))
             (RError e)]
        {| pod_lists := pod_lists st; pv_lists := pv_lists st; pvc_reads := pvc_reads st;
           job_reads := job_reads st; writes := rest; answers := answers st;
           pods := pods st; trace := trace st |})) /\
  (forall rest, pod_lists st = inl e :: rest ->
     deletion_wait (S fuel) namespaceName pvcName pvc st =
     (Throw e,
      log [EApi (listNamespacedPod namespaceName) (RError e)]
        {| pod_lists := rest; pv_lists := pv_lists st; pvc_reads := pvc_reads st;
           job_reads := job_reads st; writes := writes st; answers := answers st;
           pods := pods st; trace := trace st |})).
Proof.
  split; intros rest Hscript; destruct st; cbn [writes pod_lists] in Hscript; subst.
  - unfold step2_run. run_handler. reflexivity.
  - unfold deletion_wait. rewrite while_true_turn.
    unfold deletion_wait_body. run_handler. reflexivity.
Qed.

Lemma step2_failures_witness :
  fst (deletion_wait 1 "apps" "data" sample_claim
         {| pod_lists := [inl (OtherError "socket hang up")]; pv_lists := [];
            pvc_reads := [inl (HttpError 404 "not found")]; job_reads := [];
            writes := []; answers := []; pods := []; trace := [] |})
  = Throw (OtherError "socket hang up").
Proof.
  destruct (step2_failures 0 "apps" "data" sample_claim
              {| pod_lists := [inl (OtherError "socket hang up")]; pv_lists := [];
                 pvc_reads := [inl (HttpError 404 "not found")]; job_reads := [];
                 writes := []; answers := []; pods := []; trace := [] |}
              (OtherError "socket hang up")) as (_ & Hlist).
  by rewrite (Hlist [] eq_refl).
Defined.

(** X15: Step 4 is two calls in a row: when the first (removing the claim
    reference) is rejected nothing else is sent; when it succeeds and the
    second (creating the temporary claim) is rejected, the action throws
    with the claim reference already removed; when both succeed, the
    temporary claim carries the run token in its name, the storage class,
    access modes and resources of the source claim, and the name of the
    old volume. *)
Theorem step4_two_calls runID pvc pv st :
  let patch := patchPersistentVolume (pv_name pv) [PatchRemove "/spec/claimRef"] in
  let create :=
    createNamespacedPersistentVolumeClaim (pvc_namespace pvc) (temp_claim runID pvc pv) in
  (forall e rest, writes st = Some e :: rest ->
     fst (step4_run runID pvc pv st) = Throw e /\
     trace (snd (step4_run runID pvc pv st)) = (trace st ++ [EApi patch (RError e)])%list /\
     writes (snd (step4_run runID pvc pv st)) = rest) /\
  (forall e rest, writes st = None :: Some e :: rest ->
     fst (step4_run runID pvc pv st) = Throw e /\
     trace (snd (step4_run runID pvc pv st)) =
     (trace st ++ [EApi patch RDone; EApi create (RError e)])%list) /\
  (forall rest, writes st = None :: None :: rest ->
     fst (step4_run runID pvc pv st) = Ret true /\
     trace (snd (step4_run runID pvc pv st)) =
     (trace st ++ [EApi patch RDone; EApi create RDone])%list) /\
  pvc_name (temp_claim runID pvc pv) = Some ("csc-" ++ runID ++ "-old-data") /\
  pvc_spec (temp_claim runID pvc pv) ≫= storageClassName = pvc_spec pvc ≫= storageClassName /\
  pvc_spec (temp_claim runID pvc pv) ≫= accessModes = pvc_spec pvc ≫= accessModes /\
  pvc_spec (temp_claim runID pvc pv) ≫= resources = pvc_spec pvc ≫= resources /\
  pvc_spec (temp_claim runID pvc pv) ≫= volumeName = pv_name pv.
Proof.
  intros patch create. repeat split;
    try (intros; destruct st; cbn [writes] in *; subst;
         unfold step4_run; run_handler; rewrite <- ?app_assoc; reflexivity).
Qed.

Lemma step4_two_calls_witness :
  fst (step4_run "run-1" sample_claim sample_volume
         {| pod_lists := []; pv_lists := []; pvc_reads := []; job_reads := [];
            writes := [None; Some (HttpError 409 "conflict")];
            answers := []; pods := []; trace := [] |})
  = Throw (HttpError 409 "conflict").
Proof.
  destruct (step4_two_calls "run-1" sample_claim sample_volume
              {| pod_lists := []; pv_lists := []; pvc_reads := []; job_reads := [];
                 writes := [None; Some (HttpError 409 "conflict")];
                 answers := []; pods := []; trace := [] |}) as (_ & Hsecond & _).
  destruct (Hsecond (HttpError 409 "conflict") [] eq_refl) as [Hthrow _]. exact Hthrow.
Defined.

(** X16: Step 5: when the job cannot be created its status is never read; and a
    rejected status read is not caught by the wait: it is thrown at once,
    with no progress line and no sleep, so the step fails by throwing. *)
Theorem step5_failures fuel runID pvc st e :
  (forall rest, writes st = Some e :: rest ->
     fst (step5_run fuel runID pvc st) = Throw e /\
     job_reads (snd (step5_run fuel runID pvc st)) = job_reads st /\
     trace (snd (step5_run fuel runID pvc st)) =
     (trace st ++
      [EApi (createNamespacedJob (pvc_namespace pvc) (copy_job runID pvc)) (RError e)])%list) /\
  (forall rest, job_reads st = inl e :: rest ->
     job_wait (S fuel) runID pvc st =
     (Throw e,
      log [EApi (readNamespacedJobStatus (copy_job_name runID) (pvc_namespace pvc))
             (RError e)]
        {| pod_lists := pod_lists st; pv_lists := pv_lists st; pvc_reads := pvc_reads st;
           job_reads := rest; writes := writes st; answers := answers st;
           pods := pods st; trace := trace st |})) /\
  (forall jobs rest, writes st = None :: rest -> job_reads st = inl e :: jobs ->
     fst (step5_run (S fuel) runID pvc st) = Throw e).
Proof.
  split; [|split].
  - intros rest Hw. destruct st; cbn [writes] in Hw; subst.
    unfold step5_run. run_handler. repeat split.
  - intros rest Hj. destruct st; cbn [job_reads] in Hj; subst.
    unfold job_wait. rewrite while_true_turn. unfold job_wait_body. run_handler. reflexivity.
  - intros jobs rest Hw Hj. destruct st; cbn [writes job_reads] in Hw, Hj; subst.
    unfold step5_run, bind at 1. cbv [api_write settle bind emit ret]. cbn [writes].
    unfold job_wait. rewrite while_true_turn. unfold job_wait_body. run_handler. reflexivity.
Qed.

Lemma step5_failures_witness :
  fst (step5_run 1 "run-1" sample_claim
         {| pod_lists := []; pv_lists := []; pvc_reads := [];
            job_reads := [inl (HttpError 500 "internal error")];
            writes := [None]; answers := []; pods := []; trace := [] |})
  = Throw (HttpError 500 "internal error").
Proof.
  destruct (step5_failures 0 "run-1" sample_claim
              {| pod_lists := []; pv_lists := []; pvc_reads := [];
                 job_reads := [inl (HttpError 500 "internal error")];
                 writes := [None]; answers := []; pods := []; trace := [] |}
              (HttpError 500 "internal error")) as (_ & _ & Hread).
  exact (Hread [] [] eq_refl eq_refl).
Defined.

(** X17: Of the six actions only the fifth can return [false]: the others
    return [true] whenever they return, and fail only by throwing. *)
Theorem only_copy_step_returns_false
    fuel runID namespaceName newStorageClassName pvcName pvc pv i step :
  steps fuel runID namespaceName newStorageClassName pvcName pvc pv !! i = Some step ->
  i <> 4%nat ->
  forall st st' b, run step st = (Ret b, st') -> b = true.
Proof.
  intros Hstep Hi st st' b.
  unfold steps in Hstep.
  destruct i as [|[|[|[|[|[|i]]]]]]; cbn in Hstep; try discriminate; try (by destruct Hi);
    injection Hstep as <-; cbn [run].
  - unfold step1_run, bind. destruct (api_write _ st) as [[[]|e| |] st1]; try discriminate.
    by intros [= <- _].
  - unfold step2_run, bind. destruct (api_write _ st) as [[[]|e| |] st1]; try discriminate.
    destruct (deletion_wait _ _ _ _ st1) as [[[]|e| |] st2]; try discriminate.
    by intros [= <- _].
  - unfold step3_run. destruct (replacement_claim pvc newStorageClassName); [discriminate|].
    unfold bind. destruct (api_write _ st) as [[[]|e| |] st1]; try discriminate.
    by intros [= <- _].
  - unfold step4_run, bind. destruct (api_write _ st) as [[[]|e| |] st1]; try discriminate.
    destruct (api_write _ st1) as [[[]|e| |] st2]; try discriminate.
    by intros [= <- _].
  - unfold step6_run, bind. destruct (api_write _ st) as [[[]|e| |] st1]; try discriminate.
    by intros [= <- _].
Qed.

Lemma only_copy_step_returns_false_witness :
  exists b st', step1_run sample_volume happy_script = (Ret b, st') /\ b = true.
Proof.
  eexists _, _. split; [reflexivity|].
  eapply (only_copy_step_returns_false 3 "run-1" "apps" "fast" "data" sample_claim
            sample_volume 0 {| description := _; run := step1_run sample_volume |})
    with (st := happy_script).
  - reflexivity.
  - discriminate.
  - reflexivity.
Defined.

(** ** What is written when a step fails, and how often the operator is asked *)

Lemma run_steps_failure_message plan : forall i st v st',
  run_steps i plan st = (Ret (Some (Some v)), st') ->
  exists pre e m,
    trace st' = (pre ++ [e; EOutput m])%list /\
    is_step_failure e = true /\ failure_message e = Some m.
Proof.
  induction plan as [|step rest IH]; intros i st v st' Hrun; [discriminate|].
  rewrite run_steps_turn in Hrun.
  destruct (answers st) as [|answer others]; [discriminate|].
  destruct (String.eqb answer "Y"); [|discriminate].
  destruct (run step _) as [[[|]|e'| |] st1]; try discriminate.
  - by apply IH in Hrun.
  - injection Hrun as <- <-. by exists (trace st1), (EStepReturn i false), (MsgStepFailed (S i) None).
  - injection Hrun as <- <-.
    by exists (trace st1), (EStepThrow i e'), (MsgStepFailed (S i) (error_detail e')).
Qed.

(** Where the last loop event of a trace sits. *)
Lemma last_loop_event l1 e l2 pre e' o :
  (l1 ++ e :: l2 = pre ++ [e'; o])%list ->
  quiet l2 ->
  is_loop_event e = true -> is_loop_event e' = true -> is_loop_event o = false ->
  l1 = pre /\ e = e' /\ l2 = [o].
Proof.
  intros Heq Hquiet He He' Ho.
  replace (pre ++ [e'; o])%list with ((pre ++ [e']) ++ [o])%list in Heq
    by (by rewrite <- app_assoc).
  destruct l2 as [|x l2 _] using rev_ind.
  { apply app_inj_tail in Heq as [_ ->]. congruence. }
  replace (l1 ++ e :: l2 ++ [x])%list with ((l1 ++ e :: l2) ++ [x])%list in Heq
    by (by rewrite <- app_assoc).
  apply app_inj_tail in Heq as [Heq ->].
  destruct l2 as [|y l2 _] using rev_ind.
  { apply app_inj_tail in Heq as [-> ->]. done. }
  exfalso.
  replace (l1 ++ e :: l2 ++ [y])%list with ((l1 ++ e :: l2) ++ [y])%list in Heq
    by (by rewrite <- app_assoc).
  apply app_inj_tail in Heq as [_ ->].
  apply Forall_app in Hquiet as [Hquiet _]. apply Forall_app in Hquiet as [_ Hy].
  apply Forall_inv in Hy. congruence.
Qed.

Lemma is_step_failure_loop_event e : is_step_failure e = true -> is_loop_event e = true.
Proof. by destruct e. Qed.

(** X18: A step action that returns [false] or throws is always reported, and
    the report is the last thing the run does: the message names the step
    by its number in the plan (counted from 1) and carries the body of the
    error when the action threw an [HttpError], nothing otherwise. *)
Theorem step_failure_is_reported fuel runID namespaceName newStorageClassName pvcName
    st l1 e l2 :
  events_of (handler fuel runID namespaceName newStorageClassName pvcName) st =
    (l1 ++ e :: l2)%list ->
  is_step_failure e = true ->
  exists m, failure_message e = Some m /\ l2 = [EOutput m].
Proof.
  intros Hsplit Hfail.
  destruct (handler_events fuel runID namespaceName newStorageClassName pvcName st)
    as (s & Hmon & Hres).
  assert (quiet l2 /\
          result_of (handler fuel runID namespaceName newStorageClassName pvcName) st
          = Ret (Some false)) as [Hquiet Hfalse].
  { rewrite Hsplit, monitor_app in Hmon.
    destruct (monitor (Awaiting 0) l1) as [s1|]; [|discriminate].
    cbn [mbind option_bind monitor] in Hmon.
    destruct (phase_step s1 e) as [s2|] eqn:Hstep; [|discriminate].
    rewrite (phase_step_failure _ _ _ Hstep Hfail) in Hmon.
    apply monitor_halted in Hmon as [-> Hquiet]. done. }
  clear s Hmon Hres. revert Hsplit Hfalse.
  destruct st as [lists volumes reads jobs ws ans ps tr].
  destruct reads as [|[e1|pvc] reads];
    [| |destruct volumes as [|[e2|items] volumes];
        [| |destruct lists as [|[e3|listed] lists]]].
  1-6: run_discovery; discriminate.
  destruct (first_matching_pv pvc items) as [pv|] eqn:Hpv.
  - unfold result_of, events_of.
    rewrite (handler_found fuel runID namespaceName newStorageClassName pvcName
               (Build_State (inr listed :: lists) (inr items :: volumes) (inr pvc :: reads)
                  jobs ws ans ps tr)
               pvc items listed pv reads volumes lists eq_refl eq_refl eq_refl Hpv).
    match goal with |- context [run_steps 0 ?plan ?s] =>
      destruct (run_steps 0 plan s) as [[[[v|]|]|e'| |] st'] eqn:Hrun
    end; try discriminate.
    cbn [snd]. intros Hsplit _.
    apply run_steps_failure_message in Hrun as (pre & e' & m & Htr & Hfail' & Hm).
    rewrite Htr in Hsplit. symmetry in Hsplit.
    apply last_loop_event in Hsplit as (_ & -> & ->);
      auto using is_step_failure_loop_event.
    by exists m.
  - run_discovery. rewrite Hpv. discriminate.
Qed.

Lemma step_failure_is_reported_witness :
  exists m,
    failure_message (EStepReturn 4 false) = Some m /\
    skipn 61 (events_of (handler 3 "run-1" "apps" "fast" "data") failing_job_script)
    = [EOutput m].
Proof.
  apply (step_failure_is_reported 3 "run-1" "apps" "fast" "data" failing_job_script
           (firstn 60 (events_of (handler 3 "run-1" "apps" "fast" "data") failing_job_script))).
  - vm_compute. reflexivity.
  - reflexivity.
Defined.

Lemma quiet_no_prompt q : quiet q -> count is_prompt q = 0%nat.
Proof.
  induction 1 as [|e q He _ IH]; [done|].
  rewrite count_cons, IH. by destruct e.
Qed.

Lemma quiet_no_call q j : quiet q -> ~ In (EStepCall j) q.
Proof.
  intros Hq Hin. unfold quiet in Hq. rewrite List.Forall_forall in Hq.
  by specialize (Hq _ Hin).
Qed.

(** The loop over a plan asks at most once per step and enters only
    actions of the plan. *)
Lemma run_steps_bounds plan :
  Forall (fun step => silent (run step)) plan ->
  forall i st, exists evs,
    trace (snd (run_steps i plan st)) = (trace st ++ evs)%list /\
    (count is_prompt evs <= length plan)%nat /\
    forall j, In (EStepCall j) evs -> (i <= j < i + length plan)%nat.
Proof.
  induction 1 as [|step rest Hstep _ IH]; intros i st.
  { exists []. rewrite app_nil_r. split; [done|]. split; [cbn; lia|]. intros j []. }
  rewrite run_steps_turn.
  set (ready := EOutput (MsgReady (S i) (description step))).
  destruct (answers st) as [|answer others].
  { exists [ready]. split; [done|]. split; [cbn; lia|].
    intros j [Hj|[]]. discriminate. }
  destruct (String.eqb answer "Y").
  2:{ exists [ready; EInput confirm_prompt answer].
      split; [done|]. split; [cbn; lia|].
      intros j [Hj|[Hj|[]]]; discriminate. }
  set (before := [ready; EInput confirm_prompt answer; EStepCall i]).
  set (st1 := log before (answered st)).
  destruct (Hstep st1) as (q & Hq & Hquiet).
  assert (count is_prompt (before ++ q) = 1%nat) as Hcount
    by (rewrite count_app, (quiet_no_prompt q Hquiet); reflexivity).
  assert (forall j, In (EStepCall j) (before ++ q)%list -> j = i) as Hcalls.
  { intros j Hin. apply in_app_iff in Hin as [[Hj|[Hj|[Hj|[]]]]|Hin]; try discriminate.
    - by injection Hj.
    - by destruct (quiet_no_call q j Hquiet). }
  destruct (run step st1) as [[[|]|e| |] st2]; simpl in Hq.
  - destruct (IH (S i) (log [EStepReturn i true; EOutput (MsgStepSuccessful (S i))] st2))
      as (evs & Hevs & Hprompts & Hbound).
    exists ((before ++ q) ++ [EStepReturn i true; EOutput (MsgStepSuccessful (S i))] ++ evs)%list.
    split; [|split].
    + rewrite Hevs. simpl. rewrite Hq. simpl. rewrite <- !app_assoc. reflexivity.
    + rewrite !count_app, (quiet_no_prompt q Hquiet). subst before. cbn. cbn in Hprompts. lia.
    + intros j Hin. cbn [length].
      apply in_app_iff in Hin as [Hin|Hin]; [apply Hcalls in Hin; lia|].
      apply in_app_iff in Hin as [[Hj|[Hj|[]]]|Hin]; try discriminate.
      apply Hbound in Hin. lia.
  - exists ((before ++ q) ++ [EStepReturn i false; EOutput (MsgStepFailed (S i) None)])%list.
    split; [|split].
    + simpl. rewrite Hq. simpl. rewrite <- !app_assoc. reflexivity.
    + rewrite !count_app, (quiet_no_prompt q Hquiet). subst before. cbn. lia.
    + intros j Hin. cbn [length].
      apply in_app_iff in Hin as [Hin|[Hj|[Hj|[]]]]; try discriminate.
      apply Hcalls in Hin. lia.
  - exists ((before ++ q) ++
            [EStepThrow i e; EOutput (MsgStepFailed (S i) (error_detail e))])%list.
    split; [|split].
    + simpl. rewrite Hq. simpl. rewrite <- !app_assoc. reflexivity.
    + rewrite !count_app, (quiet_no_prompt q Hquiet). subst before. cbn. lia.
    + intros j Hin. cbn [length].
      apply in_app_iff in Hin as [Hin|[Hj|[Hj|[]]]]; try discriminate.
      apply Hcalls in Hin. lia.
  - exists (before ++ q)%list. split; [|split].
    + simpl. rewrite Hq. simpl. rewrite <- !app_assoc. reflexivity.
    + rewrite Hcount. cbn. lia.
    + intros j Hin. apply Hcalls in Hin. cbn [length]. lia.
  - exists (before ++ q)%list. split; [|split].
    + simpl. rewrite Hq. simpl. rewrite <- !app_assoc. reflexivity.
    + rewrite Hcount. cbn. lia.
    + intros j Hin. apply Hcalls in Hin. cbn [length]. lia.
Qed.

(** X19: In every run the operator is asked at most six times, and only the six
    actions of the plan are ever entered. *)
Theorem prompts_and_steps_bounded fuel runID namespaceName newStorageClassName pvcName st :
  (count is_prompt
     (events_of (handler fuel runID namespaceName newStorageClassName pvcName) st) <= 6)%nat /\
  forall j,
    In (EStepCall j)
      (events_of (handler fuel runID namespaceName newStorageClassName pvcName) st) ->
    (j < 6)%nat.
Proof.
  destruct st as [lists volumes reads jobs ws ans ps tr].
  destruct reads as [|[e1|pvc] reads];
    [| |destruct volumes as [|[e2|items] volumes];
        [| |destruct lists as [|[e3|listed] lists]]].
  1-6: run_discovery; (split; [cbn; lia|]); intros j Hin; cbn in Hin;
       repeat (destruct Hin as [Hin|Hin]; [discriminate|]); destruct Hin.
  destruct (first_matching_pv pvc items) as [pv|] eqn:Hpv.
  - unfold events_of.
    rewrite (handler_found fuel runID namespaceName newStorageClassName pvcName
               (Build_State (inr listed :: lists) (inr items :: volumes) (inr pvc :: reads)
                  jobs ws ans ps tr)
               pvc items listed pv reads volumes lists eq_refl eq_refl eq_refl Hpv).
    match goal with |- context [run_steps 0 ?plan ?s] =>
      destruct (run_steps_bounds plan (steps_silent _ _ _ _ _ _ _) 0 s)
        as (evs & Hevs & Hprompts & Hbound);
      set (start := s) in *;
      assert (count is_prompt (trace start) = 0%nat) as Hnone by reflexivity;
      assert (forall j, ~ In (EStepCall j) (trace start)) as Hnocall
        by (intros j Hin; cbn in Hin;
            repeat (destruct Hin as [Hin|Hin]; [discriminate|]); destruct Hin);
      destruct (run_steps 0 plan start) as [[[v|]|e'| |] st']
    end; cbn [snd] in *.
    all: try (unfold log; cbn [trace]).
    all: rewrite Hevs, ?count_app, Hnone; (split; [cbn in *; lia|]).
    all: intros j Hin; rewrite ?in_app_iff in Hin.
    all: destruct Hin as [[Hin|Hin]|Hin] || destruct Hin as [Hin|Hin];
         try (by destruct (Hnocall j)); try (apply Hbound in Hin; cbn in Hin; lia).
    all: cbn in Hin; repeat (destruct Hin as [Hin|Hin]; [discriminate|]); destruct Hin.
  - run_discovery. rewrite Hpv. split; [cbn; lia|]. intros j Hin; cbn in Hin.
    repeat (destruct Hin as [Hin|Hin]; [discriminate|]). destruct Hin.
Qed.

(** ** Which calls change the cluster, and in which order *)

Lemma write_calls_app l1 l2 : write_calls (l1 ++ l2) = (write_calls l1 ++ write_calls l2)%list.
Proof. apply List.filter_app. Qed.

Lemma write_free_ret {A} (a : A) : write_free (ret a).
Proof. intros st. exists []. by rewrite app_nil_r. Qed.

Lemma write_free_bind {A B} (m : M A) (k : A -> M B) :
  write_free m -> (forall a, write_free (k a)) -> write_free (bind m k).
Proof.
  intros Hm Hk st. unfold bind.
  destruct (Hm st) as (evs1 & Htr1 & Hw1).
  destruct (m st) as [[a|e| |] st1]; simpl in *; eauto.
  destruct (Hk a st1) as (evs2 & Htr2 & Hw2).
  exists (evs1 ++ evs2)%list. split.
  - by rewrite Htr2, Htr1, app_assoc.
  - by rewrite write_calls_app, Hw1, Hw2.
Qed.

Lemma write_free_try_catch {A} (m : M A) (handler : Err -> M A) :
  write_free m -> (forall e, write_free (handler e)) -> write_free (try_catch m handler).
Proof.
  intros Hm Hh st. unfold try_catch.
  destruct (Hm st) as (evs1 & Htr1 & Hw1).
  destruct (m st) as [[a|e| |] st1]; simpl in *; eauto.
  destruct (Hh e st1) as (evs2 & Htr2 & Hw2).
  exists (evs1 ++ evs2)%list. split.
  - by rewrite Htr2, Htr1, app_assoc.
  - by rewrite write_calls_app, Hw1, Hw2.
Qed.

Lemma write_free_while_true {A} (fuel : nat) (body : M (option A)) :
  write_free body -> write_free (while_true fuel body).
Proof.
  intros Hbody. induction fuel as [|fuel IH]; simpl.
  - intros st. exists []. by rewrite app_nil_r.
  - apply write_free_bind; [done|]. intros [a|]; [apply write_free_ret|done].
Qed.

Lemma write_free_emit e : is_write_call e = false -> write_free (emit e).
Proof. intros He st. exists [e]. split; [done|]. unfold write_calls. simpl. by rewrite He. Qed.

Lemma write_free_set_pods ps : write_free (set_pods ps).
Proof. intros st. exists []. by rewrite app_nil_r. Qed.

Lemma write_free_get_pods : write_free get_pods.
Proof. intros st. exists []. by rewrite app_nil_r. Qed.

Lemma write_free_listNamespacedPod ns : write_free (api_listNamespacedPod ns).
Proof.
  intros st. unfold api_listNamespacedPod.
  destruct (pod_lists st) as [|[e|items] rest]; [exists []; by rewrite app_nil_r| |];
    run_handler; eexists [_]; split; reflexivity.
Qed.

Lemma write_free_readClaim name ns :
  write_free (api_readNamespacedPersistentVolumeClaim name ns).
Proof.
  intros st. unfold api_readNamespacedPersistentVolumeClaim.
  destruct (pvc_reads st) as [|[e|body] rest]; [exists []; by rewrite app_nil_r| |];
    run_handler; eexists [_]; split; reflexivity.
Qed.

Lemma write_free_readJobStatus name ns : write_free (api_readNamespacedJobStatus name ns).
Proof.
  intros st. unfold api_readNamespacedJobStatus.
  destruct (job_reads st) as [|[e|body] rest]; [exists []; by rewrite app_nil_r| |];
    run_handler; eexists [_]; split; reflexivity.
Qed.

Ltac write_free_steps :=
  repeat first
    [ apply write_free_ret
    | apply write_free_set_pods
    | apply write_free_get_pods
    | apply write_free_listNamespacedPod
    | apply write_free_readClaim
    | apply write_free_readJobStatus
    | apply write_free_bind; [|intros ?]
    | apply write_free_try_catch; [|intros ?]
    | apply write_free_while_true
    | apply write_free_emit; reflexivity
    | match goal with
      | |- write_free (match ?x with _ => _ end) => destruct x
      end ].

(** Neither wait sends a call that changes the cluster. *)
Lemma deletion_wait_write_free fuel namespaceName pvcName pvc :
  write_free (deletion_wait fuel namespaceName pvcName pvc).
Proof.
  unfold deletion_wait, deletion_wait_body, getPodsMountingPVC, output, sleep.
  write_free_steps.
Qed.

Lemma job_wait_write_free fuel runID pvc : write_free (job_wait fuel runID pvc).
Proof. unfold job_wait, job_wait_body, output, sleep. write_free_steps. Qed.

(** What an accepted call adds to the trace. *)
Lemma api_write_returns call st u st' :
  api_write call st = (Ret u, st') -> trace st' = (trace st ++ [EApi call RDone])%list.
Proof.
  unfold api_write. destruct (writes st) as [|[e|] rest]; run_handler; [done..|].
  by intros [= _ <-].
Qed.

(** Each action, when it returns [true], has sent exactly its own calls:
    one for steps 1, 2, 3, 5 and 6, two for step 4. *)
Lemma steps_send fuel runID namespaceName newStorageClassName pvcName pvc pv :
  Forall2 sends_when_true
    (steps fuel runID namespaceName newStorageClassName pvcName pvc pv)
    (migration_calls runID newStorageClassName pvc pv).
Proof.
  unfold steps, migration_calls.
  repeat (apply Forall2_cons; split); [..|apply Forall2_nil_2];
    intros st st'; cbn [run].
  - unfold step1_run, bind.
    destruct (api_write _ st) as [[u|e| |] st1] eqn:Hw; try discriminate.
    intros [= <-]. apply api_write_returns in Hw. eauto.
  - unfold step2_run, bind.
    destruct (api_write _ st) as [[u|e| |] st1] eqn:Hw; try discriminate.
    apply api_write_returns in Hw.
    destruct (deletion_wait_write_free fuel namespaceName pvcName pvc st1)
      as (evs & Hevs & Hfree).
    destruct (deletion_wait _ _ _ _ st1) as [[u'|e| |] st2]; try discriminate.
    intros [= <-]. simpl in *. eexists. split.
    + rewrite Hevs, Hw, <- !app_assoc. reflexivity.
    + rewrite !write_calls_app, Hfree. reflexivity.
  - unfold step3_run. destruct (replacement_claim pvc newStorageClassName) as [e|body];
      [discriminate|].
    unfold bind. destruct (api_write _ st) as [[u|e| |] st1] eqn:Hw; try discriminate.
    intros [= <-]. apply api_write_returns in Hw. eauto.
  - unfold step4_run, bind.
    destruct (api_write _ st) as [[u|e| |] st1] eqn:Hw1; try discriminate.
    destruct (api_write _ st1) as [[u'|e| |] st2] eqn:Hw2; try discriminate.
    intros [= <-]. apply api_write_returns in Hw1, Hw2. eexists. split.
    + rewrite Hw2, Hw1, <- app_assoc. reflexivity.
    + reflexivity.
  - unfold step5_run, bind.
    destruct (api_write _ st) as [[u|e| |] st1] eqn:Hw; try discriminate.
    apply api_write_returns in Hw.
    destruct (job_wait_write_free fuel runID pvc st1) as (evs & Hevs & Hfree).
    destruct (job_wait _ _ _ st1) as [[b|e| |] st2]; try discriminate.
    intros [= -> <-]. simpl in *. eexists. split.
    + rewrite Hevs, Hw, <- !app_assoc. reflexivity.
    + rewrite !write_calls_app, Hfree. reflexivity.
  - unfold step6_run, bind.
    destruct (api_write _ st) as [[u|e| |] st1] eqn:Hw; try discriminate.
    intros [= <-]. apply api_write_returns in Hw. eauto.
Qed.

(** A loop that runs to its end has sent the calls of its steps, in plan
    order, and nothing else. *)
Lemma run_steps_sends plan sent :
  Forall2 sends_when_true plan sent ->
  forall i st st',
    run_steps i plan st = (Ret None, st') ->
    exists evs, trace st' = (trace st ++ evs)%list /\ write_calls evs = concat sent.
Proof.
  induction 1 as [|step ws rest sent Hstep _ IH]; intros i st st' Hrun.
  { injection Hrun as <-. exists []. by rewrite app_nil_r. }
  rewrite run_steps_turn in Hrun.
  destruct (answers st) as [|answer others]; [discriminate|].
  destruct (String.eqb answer "Y"); [|discriminate].
  match type of Hrun with context [run step (log ?evs0 ?s)] =>
    set (before := evs0) in *; set (st1 := log before s) in *
  end.
  destruct (run step st1) as [[[|]|e'| |] st2] eqn:Hstep1; try discriminate.
  apply Hstep in Hstep1 as (q & Hq & Hsent).
  apply IH in Hrun as (evs & Hevs & Hrest). simpl in Hevs.
  exists (before ++ q ++ [EStepReturn i true; EOutput (MsgStepSuccessful (S i))] ++ evs)%list.
  split.
  - rewrite Hevs, Hq. simpl. rewrite <- !app_assoc. reflexivity.
  - rewrite !write_calls_app, Hsent, Hrest. reflexivity.
Qed.

Lemma run_steps_all_returned plan : forall i st st',
  run_steps i plan st = (Ret None, st') ->
  Forall (fun step => exists s s', run step s = (Ret true, s')) plan.
Proof.
  induction plan as [|step rest IH]; intros i st st' Hrun; [constructor|].
  rewrite run_steps_turn in Hrun.
  destruct (answers st) as [|answer others]; [discriminate|].
  destruct (String.eqb answer "Y"); [|discriminate].
  destruct (run step _) as [[[|]|e'| |] st2] eqn:Hstep; try discriminate.
  constructor; [eauto|]. by apply IH in Hrun.
Qed.

(** X20: A run that ends with the closing message has changed the cluster by
    exactly seven calls, all accepted, in this order: retain the volume,
    delete the claim, create the replacement claim, remove the claim
    reference, create the temporary claim, create the copy job, delete the
    temporary claim. *)
Theorem complete_run_calls fuel runID namespaceName newStorageClassName pvcName st :
  result_of (handler fuel runID namespaceName newStorageClassName pvcName) st = Ret None ->
  last (events_of (handler fuel runID namespaceName newStorageClassName pvcName) st) =
    Some (EOutput MsgFinished) ->
  exists pvc items pv body reads volumes,
    pvc_reads st = inr pvc :: reads /\
    pv_lists st = inr items :: volumes /\
    first_matching_pv pvc items = Some pv /\
    replacement_claim pvc newStorageClassName = inr body /\
    write_calls (events_of (handler fuel runID namespaceName newStorageClassName pvcName) st) =
    [ EApi (patchPersistentVolume (pv_name pv)
              [PatchReplace "/spec/persistentVolumeReclaimPolicy" "Retain"]) RDone;
      EApi (deleteNamespacedPersistentVolumeClaim (pvc_name pvc) (pvc_namespace pvc)) RDone;
      EApi (createNamespacedPersistentVolumeClaim (pvc_namespace pvc) body) RDone;
      EApi (patchPersistentVolume (pv_name pv) [PatchRemove "/spec/claimRef"]) RDone;
      EApi (createNamespacedPersistentVolumeClaim (pvc_namespace pvc)
              (temp_claim runID pvc pv)) RDone;
      EApi (createNamespacedJob (pvc_namespace pvc) (copy_job runID pvc)) RDone;
      EApi (deleteNamespacedPersistentVolumeClaim (Some (temp_claim_name runID))
              (pvc_namespace pvc)) RDone ].
Proof.
  destruct st as [lists volumes reads jobs ws ans ps tr].
  destruct reads as [|[e1|pvc] reads];
    [| |destruct volumes as [|[e2|items] volumes];
        [| |destruct lists as [|[e3|listed] lists]]].
  1-6: run_discovery; discriminate.
  destruct (first_matching_pv pvc items) as [pv|] eqn:Hpv.
  2:{ run_discovery. rewrite Hpv. cbn. discriminate. }
  unfold result_of, events_of.
  rewrite (handler_found fuel runID namespaceName newStorageClassName pvcName
             (Build_State (inr listed :: lists) (inr items :: volumes) (inr pvc :: reads)
                jobs ws ans ps tr)
             pvc items listed pv reads volumes lists eq_refl eq_refl eq_refl Hpv).
  match goal with |- context [run_steps 0 ?plan ?s] =>
    set (start := s);
    assert (write_calls (trace start) = []) as Hstart by reflexivity;
    destruct (run_steps 0 plan start) as [[[[v|]|]|e'| |] st'] eqn:Hrun
  end; try discriminate; cbn [fst snd]; intros _ Hlast.
  { apply run_steps_declined in Hrun as (pre & answer & Htr & _).
    rewrite Htr, last_snoc in Hlast. discriminate. }
  pose proof (run_steps_all_returned _ _ _ _ Hrun) as Hall.
  apply (run_steps_sends _ _ (steps_send _ _ _ _ _ _ _)) in Hrun as (evs & Htr & Hsent).
  unfold steps in Hall.
  apply Forall_cons in Hall as [_ Hall]. apply Forall_cons in Hall as [_ Hall].
  apply Forall_cons in Hall as [(s & s' & Hthird) _]. cbn [run] in Hthird.
  unfold step3_run in Hthird.
  destruct (replacement_claim pvc newStorageClassName) as [e|body] eqn:Hbody;
    [discriminate|].
  exists pvc, items, pv, body, reads, volumes.
  repeat split; try done.
  unfold log. cbn [trace]. rewrite Htr, !write_calls_app, Hstart, Hsent.
  unfold migration_calls. rewrite Hbody. reflexivity.
Qed.

Lemma complete_run_calls_witness :
  exists pvc items pv body reads volumes,
    pvc_reads happy_script = inr pvc :: reads /\
    pv_lists happy_script = inr items :: volumes /\
    first_matching_pv pvc items = Some pv /\
    replacement_claim pvc "fast" = inr body /\
    write_calls (events_of (handler 3 "run-1" "apps" "fast" "data") happy_script) =
    [ EApi (patchPersistentVolume (pv_name pv)
              [PatchReplace "/spec/persistentVolumeReclaimPolicy" "Retain"]) RDone;
      EApi (deleteNamespacedPersistentVolumeClaim (pvc_name pvc) (pvc_namespace pvc)) RDone;
      EApi (createNamespacedPersistentVolumeClaim (pvc_namespace pvc) body) RDone;
      EApi (patchPersistentVolume (pv_name pv) [PatchRemove "/spec/claimRef"]) RDone;
      EApi (createNamespacedPersistentVolumeClaim (pvc_namespace pvc)
              (temp_claim "run-1" pvc pv)) RDone;
      EApi (createNamespacedJob (pvc_namespace pvc) (copy_job "run-1" pvc)) RDone;
      EApi (deleteNamespacedPersistentVolumeClaim (Some (temp_claim_name "run-1"))
              (pvc_namespace pvc)) RDone ].
Proof.
  apply (complete_run_calls 3 "run-1" "apps" "fast" "data" happy_script).
  - vm_compute. reflexivity.
  - vm_compute. reflexivity.
Defined.
